(** * Research history store of [hooks/useResearchHistory.ts]

    Shallow embedding of the bounded, localStorage-backed research history
    hook: the cleaning of orderedData, [cleanupHistory] (compaction),
    [safeSetItem] (write with quota recovery), the load effect,
    [saveResearch], [deleteResearch] and [clearHistory].

    JavaScript strings are sequences of UTF-16 code units, modelled as
    [list Z]; [substring(0, n)] is [firstn n] and [.length] is [length].
    JSON values are the [jval] type; [JSON.stringify] is [stringify];
    [new Blob([s]).size] (UTF-8 encoding of [s]) is [utf8_len]. *)

From Stdlib Require Import String Ascii ZArith List Bool Lia Sorted.
Import ListNotations.
Open Scope Z_scope.
#[local] Set Warnings "-register-all".

(** ** JavaScript strings *)

Definition jsstring := list Z.

(** An ASCII literal as a JavaScript string. *)
Definition js (s : string) : jsstring :=
  map (fun c => Z.of_nat (nat_of_ascii c)) (list_ascii_of_string s).

(** [===] on strings *)
Fixpoint jsstring_eqb (a b : jsstring) : bool :=
  match a, b with
  | [], [] => true
  | x :: a', y :: b' => (x =? y) && jsstring_eqb a' b'
  | _, _ => false
  end.

Definition ellipsis : jsstring := js "...".

(** [s.substring(0, n)] *)
Definition substring0 (s : jsstring) (n : nat) : jsstring := firstn n s.

(** ** JSON values *)

(** [JUndef] is JavaScript's [undefined], which [JSON.stringify] drops
    from objects.  Numbers are the integers that occur in this code
    ([Date.now()] timestamps). *)
Inductive jval : Type :=
| JUndef
| JNull
| JBool (b : bool)
| JNum (n : Z)
| JStr (s : jsstring)
| JArr (l : list jval)
| JObj (fs : list (jsstring * jval)).

(** Property access [o.k]: [undefined] when absent. *)
Fixpoint get (k : jsstring) (fs : list (jsstring * jval)) : jval :=
  match fs with
  | [] => JUndef
  | (k', v) :: r => if jsstring_eqb k k' then v else get k r
  end.

(** ** [JSON.stringify] *)

Definition is_high (c : Z) : bool := (0xD800 <=? c) && (c <=? 0xDBFF).
Definition is_low (c : Z) : bool := (0xDC00 <=? c) && (c <=? 0xDFFF).

Definition hex_digit (d : Z) : Z := if d <? 10 then 48 + d else 87 + d.

(** [\uXXXX] with lowercase hexadecimal digits. *)
Definition esc_u (c : Z) : jsstring :=
  [92; 117; hex_digit (c / 4096 mod 16); hex_digit (c / 256 mod 16);
   hex_digit (c / 16 mod 16); hex_digit (c mod 16)].

Definition esc_char (c : Z) : jsstring :=
  if c =? 34 then [92; 34]
  else if c =? 92 then [92; 92]
  else if c =? 8 then [92; 98]
  else if c =? 12 then [92; 102]
  else if c =? 10 then [92; 110]
  else if c =? 13 then [92; 114]
  else if c =? 9 then [92; 116]
  else if c <? 32 then esc_u c
  else [c].

(** QuoteJSONString without the quotes: lone surrogates are escaped,
    surrogate pairs are kept. *)
Fixpoint quote_body (s : jsstring) : jsstring :=
  match s with
  | [] => []
  | c :: r =>
      if is_high c then
        match r with
        | d :: r' => if is_low d then c :: d :: quote_body r'
                     else esc_u c ++ quote_body r
        | [] => esc_u c
        end
      else if is_low c then esc_u c ++ quote_body r
      else esc_char c ++ quote_body r
  end.

Definition quote (s : jsstring) : jsstring := 34 :: quote_body s ++ [34].

Fixpoint dec_aux (fuel : nat) (n : Z) (acc : jsstring) : jsstring :=
  match fuel with
  | O => 48 + n :: acc
  | S f => if n <? 10 then 48 + n :: acc
           else dec_aux f (n / 10) (48 + n mod 10 :: acc)
  end.

(** [Number.prototype.toString()] on an integer. *)
Definition to_decimal (n : Z) : jsstring :=
  let fuel := S (Z.to_nat (Z.log2 (Z.abs n))) in
  if n <? 0 then 45 :: dec_aux fuel (- n) [] else dec_aux fuel n [].

Fixpoint stringify (v : jval) : jsstring :=
  match v with
  | JUndef => js "null"
  | JNull => js "null"
  | JBool true => js "true"
  | JBool false => js "false"
  | JNum n => to_decimal n
  | JStr s => quote s
  | JArr l =>
      let fix elems (l : list jval) (first : bool) : jsstring :=
        match l with
        | [] => []
        | x :: r => (if first then [] else [44]) ++ stringify x ++ elems r false
        end in
      91 :: elems l true ++ [93]
  | JObj fs =>
      let fix members (fs : list (jsstring * jval)) (first : bool) : jsstring :=
        match fs with
        | [] => []
        | (k, JUndef) :: r => members r first
        | (k, x) :: r =>
            (if first then [] else [44]) ++ quote k ++ [58] ++ stringify x
              ++ members r false
        end in
      123 :: members fs true ++ [125]
  end.

(** ** UTF-8 byte length ([new Blob([s]).size])

    A surrogate pair is one code point of 4 bytes; a lone surrogate is
    encoded as U+FFFD (3 bytes). *)
Fixpoint utf8_len (s : jsstring) : Z :=
  match s with
  | [] => 0
  | c :: r =>
      if is_high c then
        match r with
        | d :: r' => if is_low d then 4 + utf8_len r' else 3 + utf8_len r
        | [] => 3
        end
      else (if c <? 0x80 then 1 else if c <? 0x800 then 2 else 3) + utf8_len r
  end.

(** ** [JSON.parse] on concrete inputs

    A recursive-descent reader of JSON text, used to run the code on
    concrete stored values.  Numbers are restricted to integers: a
    fraction or exponent is outside the model and is rejected.  Duplicate
    object keys keep their first position and take the last value, as in
    [JSON.parse].  The operations below take the parser as a parameter, so
    the theorems hold for [JSON.parse] itself. *)

Definition is_ws (c : Z) : bool := (c =? 32) || (c =? 9) || (c =? 10) || (c =? 13).

Fixpoint skip_ws (s : jsstring) : jsstring :=
  match s with
  | c :: r => if is_ws c then skip_ws r else s
  | [] => []
  end.

Definition hex_val (c : Z) : option Z :=
  if (48 <=? c) && (c <=? 57) then Some (c - 48)
  else if (97 <=? c) && (c <=? 102) then Some (c - 87)
  else if (65 <=? c) && (c <=? 70) then Some (c - 55)
  else None.

Fixpoint p_str (s acc : jsstring) : option (jsstring * jsstring) :=
  match s with
  | [] => None
  | 34 :: r => Some (rev acc, r)
  | 92 :: e :: r =>
      if e =? 117 then
        match r with
        | h1 :: h2 :: h3 :: h4 :: r' =>
            match hex_val h1, hex_val h2, hex_val h3, hex_val h4 with
            | Some a, Some b, Some c, Some d =>
                p_str r' (a * 4096 + b * 256 + c * 16 + d :: acc)
            | _, _, _, _ => None
            end
        | _ => None
        end
      else if e =? 34 then p_str r (34 :: acc)
      else if e =? 92 then p_str r (92 :: acc)
      else if e =? 47 then p_str r (47 :: acc)
      else if e =? 98 then p_str r (8 :: acc)
      else if e =? 102 then p_str r (12 :: acc)
      else if e =? 110 then p_str r (10 :: acc)
      else if e =? 114 then p_str r (13 :: acc)
      else if e =? 116 then p_str r (9 :: acc)
      else None
  | c :: r => if c <? 32 then None else p_str r (c :: acc)
  end.

Definition is_digit (c : Z) : bool := (48 <=? c) && (c <=? 57).

Fixpoint p_digits (s : jsstring) (acc : Z) : Z * jsstring :=
  match s with
  | c :: r => if is_digit c then p_digits r (acc * 10 + (c - 48)) else (acc, s)
  | [] => (acc, [])
  end.

Definition p_uint (s : jsstring) : option (Z * jsstring) :=
  match s with
  | 48 :: r => Some (0, r)
  | c :: r => if is_digit c then Some (p_digits r (c - 48)) else None
  | [] => None
  end.

Definition p_number (s : jsstring) : option (jval * jsstring) :=
  let r := match s with
           | 45 :: r => match p_uint r with Some (n, r') => Some (- n, r') | None => None end
           | _ => p_uint s
           end in
  match r with
  | Some (n, c :: r') =>
      if (c =? 46) || (c =? 101) || (c =? 69) then None else Some (JNum n, c :: r')
  | Some (n, []) => Some (JNum n, [])
  | None => None
  end.

Fixpoint set_member (k : jsstring) (v : jval) (fs : list (jsstring * jval))
  : list (jsstring * jval) :=
  match fs with
  | [] => [(k, v)]
  | (k', v') :: r => if jsstring_eqb k k' then (k', v) :: r else (k', v') :: set_member k v r
  end.

Fixpoint p_value (fuel : nat) (s : jsstring) : option (jval * jsstring) :=
  match fuel with
  | O => None
  | S f =>
      match skip_ws s with
      | 110 :: 117 :: 108 :: 108 :: r => Some (JNull, r)
      | 116 :: 114 :: 117 :: 101 :: r => Some (JBool true, r)
      | 102 :: 97 :: 108 :: 115 :: 101 :: r => Some (JBool false, r)
      | 34 :: r => match p_str r [] with Some (x, r') => Some (JStr x, r') | None => None end
      | 91 :: r => match skip_ws r with
                   | 93 :: r' => Some (JArr [], r')
                   | _ => p_elems f r []
                   end
      | 123 :: r => match skip_ws r with
                    | 125 :: r' => Some (JObj [], r')
                    | _ => p_members f r []
                    end
      | s' => p_number s'
      end
  end
with p_elems (fuel : nat) (s : jsstring) (acc : list jval) : option (jval * jsstring) :=
  match fuel with
  | O => None
  | S f =>
      match p_value f s with
      | None => None
      | Some (v, r) =>
          match skip_ws r with
          | 44 :: r' => p_elems f r' (v :: acc)
          | 93 :: r' => Some (JArr (rev (v :: acc)), r')
          | _ => None
          end
      end
  end
with p_members (fuel : nat) (s : jsstring) (acc : list (jsstring * jval))
  : option (jval * jsstring) :=
  match fuel with
  | O => None
  | S f =>
      match skip_ws s with
      | 34 :: r =>
          match p_str r [] with
          | None => None
          | Some (k, r1) =>
              match skip_ws r1 with
              | 58 :: r2 =>
                  match p_value f r2 with
                  | None => None
                  | Some (v, r3) =>
                      match skip_ws r3 with
                      | 44 :: r4 => p_members f r4 (set_member k v acc)
                      | 125 :: r4 => Some (JObj (set_member k v acc), r4)
                      | _ => None
                      end
                  end
              | _ => None
              end
          end
      | _ => None
      end
  end.

(** [None] is a thrown [SyntaxError]. *)
Definition json_parse (s : jsstring) : option jval :=
  match p_value (S (2 * length s)) s with
  | Some (v, r) => match skip_ws r with [] => Some v | _ => None end
  | None => None
  end.

(** ** Data model ([types/data]) *)

(** An orderedData entry: the own enumerable properties of the object. *)
Definition Data := list (jsstring * jval).

(** [ResearchHistoryItem] *)
Record ResearchHistoryItem := mkItem {
  id : jsstring;
  question : jsstring;
  answer : jsstring;
  timestamp : Z;
  orderedData : list Data
}.

Definition MAX_HISTORY_ITEMS : nat := 15.
Definition MAX_STORAGE_SIZE : Z := 4 * 1024 * 1024.
Definition MAX_ANSWER_LENGTH : nat := 5000.
Definition MAX_ORDERED_DATA_ITEMS : nat := 3.

Definition item_json (it : ResearchHistoryItem) : jval :=
  JObj [(js "id", JStr (id it)); (js "question", JStr (question it));
        (js "answer", JStr (answer it)); (js "timestamp", JNum (timestamp it));
        (js "orderedData", JArr (map JObj (orderedData it)))].

Definition history_json (h : list ResearchHistoryItem) : jsstring :=
  stringify (JArr (map item_json h)).

(** [getStorageSize] *)
Definition getStorageSize (h : list ResearchHistoryItem) : Z :=
  utf8_len (history_json h).

(** ** [cleanData] *)

(** [typeof c === 'string' ? c.substring(0, 1000) + (c.length > 1000 ? '...' : '') : c] *)
Definition clean_content (c : jval) : jval :=
  match c with
  | JStr s => JStr (substring0 s 1000 ++ (if (1000 <? length s)%nat then ellipsis else []))
  | x => x
  end.

(** [typeof o === 'string' && o.length > 500 ? o.substring(0, 500) + '...' : o] *)
Definition clean_output (o : jval) : jval :=
  match o with
  | JStr s => if (500 <? length s)%nat then JStr (substring0 s 500 ++ ellipsis) else JStr s
  | x => x
  end.

(** The body of the [switch (item.type)]. *)
Definition clean_item (item : Data) : Data :=
  let content := clean_content (get (js "content") item) in
  let output := clean_output (get (js "output") item) in
  match get (js "type") item with
  | JStr t =>
      if jsstring_eqb t (js "basic") then
        [(js "type", JStr (js "basic")); (js "content", content)]
      else if jsstring_eqb t (js "langgraphButton") then
        [(js "type", JStr (js "langgraphButton")); (js "link", get (js "link") item)]
      else if jsstring_eqb t (js "differences") then
        [(js "type", JStr (js "differences")); (js "content", content);
         (js "output", output)]
      else if jsstring_eqb t (js "question") then
        [(js "type", JStr (js "question")); (js "content", content)]
      else if jsstring_eqb t (js "chat") then
        [(js "type", JStr (js "chat")); (js "content", content)]
      else if jsstring_eqb t (js "error") then
        [(js "type", JStr (js "error")); (js "content", content); (js "output", output)]
      else item
  | _ => item
  end.

Definition cleanData (data : list Data) : list Data :=
  map clean_item (firstn MAX_ORDERED_DATA_ITEMS data).

(** ** [cleanupHistory] *)

(** [sort((a, b) => b.timestamp - a.timestamp)]: [Array.prototype.sort] is
    stable, so the result is the stable sort, newest first. *)
Fixpoint insert_desc (x : ResearchHistoryItem) (l : list ResearchHistoryItem)
  : list ResearchHistoryItem :=
  match l with
  | [] => [x]
  | y :: r => if timestamp y <=? timestamp x then x :: y :: r else y :: insert_desc x r
  end.

Fixpoint sort_desc (l : list ResearchHistoryItem) : list ResearchHistoryItem :=
  match l with
  | [] => []
  | x :: r => insert_desc x (sort_desc r)
  end.

(** The [map] of the second stage. *)
Definition shrink_item (item : ResearchHistoryItem) : ResearchHistoryItem :=
  {| id := id item; question := question item;
     answer := substring0 (answer item) (MAX_ANSWER_LENGTH / 2) ++
               (if (MAX_ANSWER_LENGTH / 2 <? length (answer item))%nat
                then ellipsis else []);
     timestamp := timestamp item;
     orderedData := firstn 2 (orderedData item) |}.

(** The [while] loop of the third stage; every round removes one item, so
    [length h] rounds are enough for it to stop. *)
Fixpoint drop_oldest (fuel : nat) (h : list ResearchHistoryItem)
  : list ResearchHistoryItem :=
  match fuel with
  | O => h
  | S f =>
      if (getStorageSize h >? MAX_STORAGE_SIZE) && (1 <? length h)%nat
      then drop_oldest f (removelast h) else h
  end.

Definition cleanupHistory (currentHistory : list ResearchHistoryItem)
  : list ResearchHistoryItem :=
  let cleanHistory := firstn MAX_HISTORY_ITEMS (sort_desc currentHistory) in
  let cleanHistory := if getStorageSize cleanHistory >? MAX_STORAGE_SIZE
                      then map shrink_item cleanHistory else cleanHistory in
  drop_oldest (length cleanHistory) cleanHistory.

(** ** Values read back from storage *)

(** The parsed array is used as [ResearchHistoryItem[]].  The typed model
    covers arrays of objects with exactly the fields the code writes;
    [None] marks any other array, on which the code depends on JavaScript's
    dynamic typing. *)
Fixpoint data_of_json (l : list jval) : option (list Data) :=
  match l with
  | [] => Some []
  | JObj fs :: r => match data_of_json r with Some d => Some (fs :: d) | None => None end
  | _ :: _ => None
  end.

Definition item_of_json (v : jval) : option ResearchHistoryItem :=
  match v with
  | JObj [(k1, JStr i); (k2, JStr q); (k3, JStr a); (k4, JNum t); (k5, JArr od)] =>
      if jsstring_eqb k1 (js "id") && jsstring_eqb k2 (js "question") &&
         jsstring_eqb k3 (js "answer") && jsstring_eqb k4 (js "timestamp") &&
         jsstring_eqb k5 (js "orderedData")
      then match data_of_json od with
           | Some d => Some (mkItem i q a t d)
           | None => None
           end
      else None
  | _ => None
  end.

Fixpoint items_of_json (l : list jval) : option (list ResearchHistoryItem) :=
  match l with
  | [] => Some []
  | v :: r => match item_of_json v, items_of_json r with
              | Some it, Some h => Some (it :: h)
              | _, _ => None
              end
  end.

(** ** localStorage and the hook state *)

(** Outcome of [localStorage.setItem]. *)
Inductive set_result := SetOk | QuotaExceeded | OtherError.

(** [history] is the React state; [storage] the value under the key
    ['researchHistory'] ([None]: absent). *)
Record state := mkState {
  history : list ResearchHistoryItem;
  storage : option jsstring
}.

Notation "'let?' x := a 'in' b" :=
  (match a with Some x => b | None => None end)
  (at level 200, x pattern, a at level 100, b at level 200).

Section Hook.

(** [JSON.parse]: [None] is a thrown [SyntaxError]. *)
Variable JSON_parse : jsstring -> option jval.

(** What [localStorage.setItem('researchHistory', v)] does, given the value
    currently stored; on failure the store is unchanged. *)
Variable set_outcome : option jsstring -> jsstring -> set_result.

(** [safeSetItem('researchHistory', value)]: the returned boolean and the
    new store; [None] when the stored value read back in the recovery is
    an array outside the typed model. *)
Definition safeSetItem (value : jsstring) (store : option jsstring)
  : option (bool * option jsstring) :=
  match set_outcome store value with
  | SetOk => Some (true, Some value)
  | OtherError => Some (false, store)
  | QuotaExceeded =>
      match store with
      | None | Some [] => Some (false, store)
      | Some currentData =>
          match JSON_parse currentData with
          | None => Some (false, None)
          | Some parsed =>
              let? h := match parsed with
                        | JArr l => items_of_json l
                        | _ => Some []
                        end in
              let cleaned := history_json (cleanupHistory h) in
              match set_outcome store cleaned with
              | SetOk => Some (true, Some cleaned)
              | _ => Some (false, None)
              end
          end
      end
  end.

(** The load effect, run once on mount with the initial state [[]]. *)
Definition loadHistory (store : option jsstring) : option state :=
  match store with
  | None | Some [] => Some (mkState [] store)
  | Some storedHistory =>
      match JSON_parse storedHistory with
      | None => Some (mkState [] None)
      | Some (JArr l) =>
          let? parsed := items_of_json l in
          let cleanedHistory := cleanupHistory parsed in
          if Nat.eqb (length cleanedHistory) (length l)
          then Some (mkState cleanedHistory store)
          else let? (_, store') := safeSetItem (history_json cleanedHistory) store in
               Some (mkState cleanedHistory store')
      | Some _ => Some (mkState [] store)
      end
  end.

(** [cleanedAnswer] of [saveResearch] *)
Definition clean_answer (answer : jsstring) : jsstring :=
  if (MAX_ANSWER_LENGTH <? length answer)%nat
  then substring0 answer MAX_ANSWER_LENGTH ++ ellipsis
  else answer.

(** [newItem] of [saveResearch]; [t_id] and [t_ts] are the two readings
    of [Date.now()]. *)
Definition new_item (t_id t_ts : Z) (question answer : jsstring) (orderedData : list Data)
  : ResearchHistoryItem :=
  {| id := to_decimal t_id;
     question := substring0 question 200;
     answer := clean_answer answer;
     timestamp := t_ts;
     orderedData := cleanData orderedData |}.

Definition minimal_item (item : ResearchHistoryItem) : ResearchHistoryItem :=
  {| id := id item; question := substring0 (question item) 100;
     answer := substring0 (answer item) 500; timestamp := timestamp item;
     orderedData := [] |}.

(** [minimalHistory] of [saveResearch] *)
Definition minimalHistory (h : list ResearchHistoryItem) : list ResearchHistoryItem :=
  map minimal_item (firstn 5 h).

Definition saveResearch (t_id t_ts : Z) (question answer : jsstring)
  (orderedData : list Data) (st : state) : option (jsstring * state) :=
  let newItem := new_item t_id t_ts question answer orderedData in
  let updatedHistory := newItem :: history st in
  let cleanedHistory := cleanupHistory updatedHistory in
  let? (success, store1) := safeSetItem (history_json cleanedHistory) (storage st) in
  if success then Some (id newItem, mkState cleanedHistory store1)
  else
    let minimal := minimalHistory cleanedHistory in
    let? (_, store2) := safeSetItem (history_json minimal) store1 in
    Some (id newItem, mkState minimal store2).

Definition getResearchById (i : jsstring) (st : state) : option ResearchHistoryItem :=
  find (fun item => jsstring_eqb (id item) i) (history st).

Definition deleteResearch (i : jsstring) (st : state) : option state :=
  let updatedHistory := filter (fun item => negb (jsstring_eqb (id item) i)) (history st) in
  let? (_, store') := safeSetItem (history_json updatedHistory) (storage st) in
  Some (mkState updatedHistory store').

Definition clearHistory (st : state) : state := mkState [] None.

End Hook.

(** ** Concrete environments *)

(** A store that accepts every write. *)
Definition accept_all (_ : option jsstring) (_ : jsstring) : set_result := SetOk.

(** A store that refuses every write with [QuotaExceededError]. *)
Definition refuse_all (_ : option jsstring) (_ : jsstring) : set_result := QuotaExceeded.

(** A store holding at most [n] code units under the key. *)
Definition quota (n : nat) (_ : option jsstring) (v : jsstring) : set_result :=
  if (length v <=? n)%nat then SetOk else QuotaExceeded.

(** ** Auxiliary definitions for the statements *)

Definition is_some {A} (o : option A) : bool :=
  match o with Some _ => true | None => false end.

(** Newest first: each item is not older than the next one. *)
Definition newest_first (a b : ResearchHistoryItem) : Prop := timestamp b <= timestamp a.

(** The first stage of [cleanupHistory]. *)
Definition sorted_prefix (h : list ResearchHistoryItem) : list ResearchHistoryItem :=
  firstn MAX_HISTORY_ITEMS (sort_desc h).

(** The second stage of [cleanupHistory]. *)
Definition reduced (h : list ResearchHistoryItem) : list ResearchHistoryItem :=
  let base := sorted_prefix h in
  if getStorageSize base >? MAX_STORAGE_SIZE then map shrink_item base else base.

Definition st_empty : state := mkState [] None.

(** Entry types whose interface has a [content] field. *)
Definition content_variants : list jval :=
  map (fun t => JStr (js t)) ["basic"; "differences"; "question"; "chat"; "error"]%string.

(** Entry types whose interface has an [output] field. *)
Definition output_variants : list jval :=
  map (fun t => JStr (js t)) ["differences"; "error"]%string.

(** The cases of the [switch (item.type)] in [cleanData]. *)
Definition known_variants : list jval :=
  map (fun t => JStr (js t))
    ["basic"; "langgraphButton"; "differences"; "question"; "chat"; "error"]%string.

(** The store holds exactly the serialized in-memory history. *)
Definition persisted_as_history (st : state) : bool :=
  match storage st with
  | Some v => jsstring_eqb v (history_json (history st))
  | None => false
  end.

(** A LangGraph button entry; [cleanData] keeps its [link] as it is. *)
Definition link_entry (s : jsstring) : Data :=
  [(js "type", JStr (js "langgraphButton")); (js "link", JStr s)].

(** A link of 4 MiB ASCII characters. *)
Definition big_link : jsstring := repeat 97 (N.to_nat 4194304).

(** ** The chat API route ([pages/api/local-chat.ts])

    [String.prototype.trim] removes WhiteSpace and LineTerminator code
    units at both ends. *)
Definition js_ws (c : Z) : bool :=
  (c =? 9) || (c =? 10) || (c =? 11) || (c =? 12) || (c =? 13) || (c =? 32) ||
  (c =? 0xA0) || (c =? 0x1680) || ((0x2000 <=? c) && (c <=? 0x200A)) ||
  (c =? 0x2028) || (c =? 0x2029) || (c =? 0x202F) || (c =? 0x205F) ||
  (c =? 0x3000) || (c =? 0xFEFF).

Fixpoint trim_start (s : jsstring) : jsstring :=
  match s with
  | c :: r => if js_ws c then trim_start r else s
  | [] => []
  end.

Definition trim (s : jsstring) : jsstring := rev (trim_start (rev (trim_start s))).

(** [!s.trim()] *)
Definition is_blank (s : jsstring) : bool :=
  match trim s with [] => true | _ => false end.

(** JavaScript truthiness of a JSON value. *)
Definition truthy (v : jval) : bool :=
  match v with
  | JUndef | JNull => false
  | JBool b => b
  | JNum n => negb (n =? 0)
  | JStr s => match s with [] => false | _ => true end
  | JArr _ | JObj _ => true
  end.

(** What [fetch] to the Python backend gives: a rejected promise, or a
    response with its status and the result of [.json()] ([None]: the
    body is not JSON). *)
Inductive backend_result :=
| FetchRejected
| BackendResponse (status : Z) (data : option jval).

(** [response.ok] *)
Definition ok_status (status : Z) : bool := (200 <=? status) && (status <=? 299).

(** The body forwarded to the backend (if any), the status and the JSON
    body of the response. *)
Record api_response := mkResponse {
  forwarded : option jsstring;
  res_status : Z;
  res_body : jval
}.

Definition error_body (msg : jsstring) : jval :=
  JObj [(js "response", JStr msg); (js "status", JStr (js "error"))].

Definition server_error_message : jsstring :=
  js "Sorry, I encountered an error while processing your message. Please make sure you have uploaded documents and try again.".

(** [handler(req, res)]; [backend] is the Python service behind
    [fetch('http://127.0.0.1:8000/api/local-chat', ...)], [body] is
    [req.body].  Destructuring [undefined] or [null] throws; a primitive
    or an array has no [message] property; [message.trim] on a truthy
    non-string is not a function and throws; every throw lands in the
    [catch]. *)
Definition handler (backend : jsstring -> backend_result) (method : jsstring) (body : jval)
  : api_response :=
  if negb (jsstring_eqb method (js "POST")) then
    mkResponse None 405 (error_body (js "Method not allowed"))
  else
    match body with
    | JUndef | JNull => mkResponse None 500 (error_body server_error_message)
    | _ =>
        let fs := match body with JObj fs => fs | _ => [] end in
        let message := get (js "message") fs in
        let chatHistory := get (js "chatHistory") fs in
        if negb (truthy message) then
          mkResponse None 400 (error_body (js "Message is required"))
        else
          match message with
          | JStr m =>
              if is_blank m then mkResponse None 400 (error_body (js "Message is required"))
              else
                let req := stringify (JObj [(js "message", JStr (trim m));
                                             (js "chatHistory",
                                              if truthy chatHistory then chatHistory
                                              else JArr [])]) in
                match backend req with
                | BackendResponse status (Some data) =>
                    if ok_status status then mkResponse (Some req) 200 data
                    else mkResponse (Some req) 500 (error_body server_error_message)
                | _ => mkResponse (Some req) 500 (error_body server_error_message)
                end
          | _ => mkResponse None 500 (error_body server_error_message)
          end
    end.

(** ** The chat client ([unnamed/part_001]: [ChatInterface] and [Home]) *)

(** An entry of [chatHistory]: [{ id, type, content }]. *)
Record ChatMessage := mkChatMessage {
  chat_id : jsstring;
  chat_type : jsstring;
  content : jsstring
}.

Definition message_json (m : ChatMessage) : jval :=
  JObj [(js "id", JStr (chat_id m)); (js "type", JStr (chat_type m));
        (js "content", JStr (content m))].

(** [l.slice(-n)] *)
Definition slice_last {A} (n : nat) (l : list A) : list A := skipn (length l - n) l.

(** [x || d] on an optional string argument. *)
Definition or_default (x : option jsstring) (d : jsstring) : jsstring :=
  match x with Some (_ :: _ as s) => s | _ => d end.

(** The request body built by [handleLocalChat] ([None]: it returns before
    the [fetch]). *)
Definition local_chat_body (message : jsstring) (chatHistory : list ChatMessage)
  (provider model : option jsstring) : option jval :=
  if is_blank message then None
  else Some (JObj [(js "message", JStr message);
                   (js "chatHistory", JArr (map message_json (slice_last 10 chatHistory)));
                   (js "provider", JStr (or_default provider (js "ollama")));
                   (js "model", JStr (or_default model (js "mistral:7b")))]).

Definition client_error_message : jsstring :=
  js "Sorry, I encountered an error while processing your message. Please try again.".

(** The [content] of the assistant message [handleLocalChat] appends, from
    the route's response: [data.response] after an ok response, the
    error message when [!response.ok] throws or [data] is [null]. *)
Definition client_reply (r : api_response) : jval :=
  if ok_status (res_status r) then
    match res_body r with
    | JObj fs => get (js "response") fs
    | JNull | JUndef => JStr client_error_message
    | _ => JUndef
    end
  else JStr client_error_message.

(** What [handleSubmit] of [ChatInterface] does with the prompt. *)
Inductive submit_action :=
| NoSubmit
| LocalChat (message : jsstring)
| Research (query : jsstring).

(** The [join] of [Array.prototype]. *)
Fixpoint join (sep : jsstring) (l : list jsstring) : jsstring :=
  match l with
  | [] => []
  | [x] => x
  | x :: r => x ++ sep ++ join sep r
  end.

Definition msg_line (m : ChatMessage) : jsstring :=
  (if jsstring_eqb (chat_type m) (js "user") then js "User" else js "Assistant")
    ++ js ": " ++ content m.

(** [conversationContext] *)
Definition conversation_context (chatHistory : list ChatMessage) : jsstring :=
  match chatHistory with
  | [] => []
  | _ => join [10] (map msg_line (slice_last 10 chatHistory))
  end.

(** [contextualQuery] *)
Definition contextual_query (promptValue : jsstring) (chatHistory : list ChatMessage)
  : jsstring :=
  match conversation_context chatHistory with
  | [] => promptValue
  | c => promptValue ++ [10; 10] ++ js "Conversation Context:" ++ [10] ++ c
  end.

(** [handleSubmit]; [has_local_chat] is whether [onLocalChat] was passed. *)
Definition handleSubmit (promptValue : jsstring) (local_mode has_local_chat : bool)
  (chatHistory : list ChatMessage) : submit_action :=
  if is_blank promptValue then NoSubmit
  else if local_mode then (if has_local_chat then LocalChat promptValue else NoSubmit)
  else Research (contextual_query promptValue chatHistory).

(** [handleResearchWithQuestions]: the combined query, if any. *)
Definition handleResearchWithQuestions (customQuestions : list jsstring) : option jsstring :=
  match filter (fun q => negb (is_blank q)) customQuestions with
  | [] => None
  | valid => Some (js "Research the following topics: " ++ join (js "; ") valid)
  end.

(** The condition of the save effect of [Home]:
    [question && !loading && (answer || orderedData.length > 1)]. *)
Definition autosave_fires (question answer : jsstring) (loading : bool)
  (orderedData : list Data) : bool :=
  negb (match question with [] => true | _ => false end) && negb loading &&
  (negb (match answer with [] => true | _ => false end) || (1 <? length orderedData)%nat).

(** [handleSelectResearch]: the question, answer and orderedData it loads
    into the page ([research.orderedData || []] is the stored array). *)
Definition handleSelectResearch (i : jsstring) (st : state)
  : option (jsstring * jsstring * list Data) :=
  match getResearchById i st with
  | Some research => Some (question research, answer research, orderedData research)
  | None => None
  end.

(** The records the hook itself creates: [newItem] of [saveResearch], and
    the results of the [map] of [cleanupHistory] and of [minimalHistory]
    on them. *)
Inductive stored_record : ResearchHistoryItem -> Prop :=
| stored_new t_id t_ts q a od : stored_record (new_item t_id t_ts q a od)
| stored_shrink r : stored_record r -> stored_record (shrink_item r)
| stored_minimal r : stored_record r -> stored_record (minimal_item r).

(** * Properties *)

(** ** Sorting, the drop loop and compaction *)

Lemma length_insert_desc x l : length (insert_desc x l) = S (length l).
Proof. induction l as [|y r IH]; simpl; [reflexivity|]. destruct (_ <=? _); simpl; auto. Qed.

Lemma length_sort_desc l : length (sort_desc l) = length l.
Proof. induction l; simpl; [reflexivity|]. rewrite length_insert_desc. auto. Qed.

Lemma Forall_insert_desc (P : ResearchHistoryItem -> Prop) x l :
  P x -> Forall P l -> Forall P (insert_desc x l).
Proof.
  intros Hx Hl. induction Hl as [|y r Hy Hr IH]; simpl; auto.
  destruct (_ <=? _); auto.
Qed.

Lemma Forall_sort_desc (P : ResearchHistoryItem -> Prop) l :
  Forall P l -> Forall P (sort_desc l).
Proof. induction 1; simpl; auto using Forall_insert_desc. Qed.

Lemma HdRel_insert_desc y x l :
  newest_first y x -> HdRel newest_first y l -> HdRel newest_first y (insert_desc x l).
Proof.
  intros Hyx Hl. destruct l as [|z r]; simpl.
  - constructor. exact Hyx.
  - destruct (timestamp z <=? timestamp x); constructor; [exact Hyx|].
    inversion Hl; assumption.
Qed.

Lemma Sorted_insert_desc x l :
  Sorted newest_first l -> Sorted newest_first (insert_desc x l).
Proof.
  induction 1 as [|y r Hr IH Hhd]; simpl.
  - repeat constructor.
  - destruct (timestamp y <=? timestamp x) eqn:E.
    + constructor; [constructor; auto|]. constructor. unfold newest_first. lia.
    + constructor; [exact IH|]. apply HdRel_insert_desc; [|exact Hhd].
      unfold newest_first. lia.
Qed.

Lemma Sorted_sort_desc l : Sorted newest_first (sort_desc l).
Proof. induction l; simpl; auto using Sorted_insert_desc. Qed.

Lemma Sorted_firstn {A} (R : A -> A -> Prop) k l : Sorted R l -> Sorted R (firstn k l).
Proof.
  revert l. induction k as [|k IH]; intros l H; simpl; [constructor|].
  destruct l as [|a r]; [constructor|].
  apply Sorted_inv in H as [Hr Hhd]. constructor; [auto|].
  destruct k, r; simpl; constructor. inversion Hhd; assumption.
Qed.

Lemma Forall_firstn {A} (P : A -> Prop) k l : Forall P l -> Forall P (firstn k l).
Proof.
  intros H. revert k. induction H as [|a r Ha Hr IH]; intros [|k]; simpl; auto.
Qed.

Lemma Sorted_map_ts (f : ResearchHistoryItem -> ResearchHistoryItem) l :
  (forall x, timestamp (f x) = timestamp x) ->
  Sorted newest_first l -> Sorted newest_first (map f l).
Proof.
  intros Hf. induction 1 as [|a r Hr IH Hhd]; simpl; constructor; auto.
  destruct r as [|b r]; simpl; constructor. inversion Hhd; subst.
  unfold newest_first in *. rewrite !Hf. assumption.
Qed.

Lemma drop_oldest_prefix f h : exists k, drop_oldest f h = firstn k h.
Proof.
  revert h. induction f as [|f IH]; intros h; simpl.
  - exists (length h). symmetry. apply firstn_all.
  - destruct (_ && _).
    + destruct (IH (removelast h)) as [k Hk]. rewrite Hk, removelast_firstn_len.
      rewrite firstn_firstn. eauto.
    + exists (length h). symmetry. apply firstn_all.
Qed.

Lemma drop_oldest_head f x t : exists t', drop_oldest f (x :: t) = x :: t'.
Proof.
  revert x t. induction f as [|f IH]; intros x t; simpl; [eauto|].
  destruct (_ && _) eqn:E; [|eauto].
  apply andb_prop in E as [_ E]. apply Nat.ltb_lt in E.
  destruct t as [|y t]; simpl in E; [lia|]. apply IH.
Qed.

Lemma drop_oldest_post f h :
  (length h <= S f)%nat ->
  getStorageSize (drop_oldest f h) <= MAX_STORAGE_SIZE \/ (length (drop_oldest f h) <= 1)%nat.
Proof.
  revert h. induction f as [|f IH]; intros h Hlen; simpl.
  - right. exact Hlen.
  - destruct (getStorageSize h >? MAX_STORAGE_SIZE) eqn:E1;
      destruct (1 <? length h)%nat eqn:E2; simpl.
    + apply IH. rewrite removelast_firstn_len, length_firstn. lia.
    + right. apply Nat.ltb_ge in E2. exact E2.
    + left. rewrite Z.gtb_ltb, Z.ltb_ge in E1. exact E1.
    + left. rewrite Z.gtb_ltb, Z.ltb_ge in E1. exact E1.
Qed.

Lemma cleanupHistory_reduced h :
  cleanupHistory h = drop_oldest (length (reduced h)) (reduced h).
Proof. reflexivity. Qed.

Lemma cleanupHistory_prefix h : exists k, cleanupHistory h = firstn k (reduced h).
Proof. rewrite cleanupHistory_reduced. apply drop_oldest_prefix. Qed.

Lemma length_reduced h : (length (reduced h) <= MAX_HISTORY_ITEMS)%nat.
Proof.
  unfold reduced, sorted_prefix. destruct (_ >? _);
    rewrite ?length_map, length_firstn; lia.
Qed.

Lemma length_cleanupHistory h : (length (cleanupHistory h) <= MAX_HISTORY_ITEMS)%nat.
Proof.
  destruct (cleanupHistory_prefix h) as [k ->]. rewrite length_firstn.
  pose proof (length_reduced h). lia.
Qed.

Lemma Sorted_reduced h : Sorted newest_first (reduced h).
Proof.
  unfold reduced, sorted_prefix.
  assert (Sorted newest_first (firstn MAX_HISTORY_ITEMS (sort_desc h)))
    by (apply Sorted_firstn, Sorted_sort_desc).
  destruct (_ >? _); [apply Sorted_map_ts; [reflexivity|]|]; assumption.
Qed.

Lemma Sorted_cleanupHistory h : Sorted newest_first (cleanupHistory h).
Proof.
  destruct (cleanupHistory_prefix h) as [k ->]. apply Sorted_firstn, Sorted_reduced.
Qed.

Lemma cleanupHistory_size h :
  getStorageSize (cleanupHistory h) <= MAX_STORAGE_SIZE \/
  (length (cleanupHistory h) <= 1)%nat.
Proof. rewrite cleanupHistory_reduced. apply drop_oldest_post. lia. Qed.

Lemma Forall_reduced (P : ResearchHistoryItem -> Prop) h :
  (forall x, P x -> P (shrink_item x)) -> Forall P h -> Forall P (reduced h).
Proof.
  intros Hs Hh. unfold reduced, sorted_prefix.
  assert (Forall P (firstn MAX_HISTORY_ITEMS (sort_desc h))).
  { apply Forall_firstn, Forall_sort_desc, Hh. }
  destruct (_ >? _); [apply Forall_map, Forall_impl with (2 := H)|]; auto.
Qed.

Lemma Forall_cleanupHistory (P : ResearchHistoryItem -> Prop) h :
  (forall x, P x -> P (shrink_item x)) -> Forall P h -> Forall P (cleanupHistory h).
Proof.
  intros Hs Hh. destruct (cleanupHistory_prefix h) as [k ->].
  apply Forall_firstn, Forall_reduced; assumption.
Qed.

(** ** The save path *)

Section SavePath.

Variable JSON_parse : jsstring -> option jval.
Variable set_outcome : option jsstring -> jsstring -> set_result.

Lemma saveResearch_cases t_id t_ts q a od st i st' :
  saveResearch JSON_parse set_outcome t_id t_ts q a od st = Some (i, st') ->
  let cleaned := cleanupHistory (new_item t_id t_ts q a od :: history st) in
  i = id (new_item t_id t_ts q a od) /\
  exists success store1,
    safeSetItem JSON_parse set_outcome (history_json cleaned) (storage st)
      = Some (success, store1) /\
    (success = true -> history st' = cleaned /\ storage st' = store1) /\
    (success = false ->
       history st' = minimalHistory cleaned /\
       exists b, safeSetItem JSON_parse set_outcome
                   (history_json (minimalHistory cleaned)) store1 = Some (b, storage st')).
Proof.
  intros H cleaned. unfold saveResearch in H. fold cleaned in H.
  destruct (safeSetItem _ _ (history_json cleaned) (storage st)) as [[success store1]|];
    [|discriminate].
  destruct success.
  - injection H as <- <-. split; [reflexivity|].
    exists true, store1. repeat split; try reflexivity; discriminate.
  - destruct (safeSetItem _ _ (history_json (minimalHistory cleaned)) store1)
      as [[b store2]|] eqn:E2; [|discriminate].
    injection H as <- <-. split; [reflexivity|].
    exists false, store1. repeat split; try discriminate; eauto.
Qed.

End SavePath.

Lemma length_minimalHistory h : (length (minimalHistory h) <= 5)%nat.
Proof. unfold minimalHistory. rewrite length_map, length_firstn. lia. Qed.

Lemma Sorted_minimalHistory h :
  Sorted newest_first h -> Sorted newest_first (minimalHistory h).
Proof. intros H. apply Sorted_map_ts; [reflexivity|]. apply Sorted_firstn, H. Qed.


(** ** Strings and orderedData entries *)

Lemma jsstring_eqb_spec a b : jsstring_eqb a b = true <-> a = b.
Proof.
  revert b. induction a as [|x a IH]; intros [|y b]; simpl; try (split; congruence).
  rewrite andb_true_iff, Z.eqb_eq, IH. split; [intros [-> ->]; reflexivity|].
  intros H; injection H; auto.
Qed.

Lemma jsstring_eqb_refl a : jsstring_eqb a a = true.
Proof. apply jsstring_eqb_spec. reflexivity. Qed.

Lemma length_filter_split {A} (f : A -> bool) l :
  (length (filter f l) + length (filter (fun x => negb (f x)) l))%nat = length l.
Proof. induction l as [|a l IH]; simpl; [reflexivity|]. destruct (f a); simpl; lia. Qed.

Lemma clean_content_non_string c : (forall s, c <> JStr s) -> clean_content c = c.
Proof. intros H. destruct c; try reflexivity. exfalso. eapply H. reflexivity. Qed.

Lemma clean_output_non_string c : (forall s, c <> JStr s) -> clean_output c = c.
Proof. intros H. destruct c; try reflexivity. exfalso. eapply H. reflexivity. Qed.

Lemma persisted_as_history_spec st :
  persisted_as_history st = true -> storage st = Some (history_json (history st)).
Proof.
  unfold persisted_as_history. destruct (storage st); [|discriminate].
  intros H. apply jsstring_eqb_spec in H. congruence.
Qed.

Lemma nth_error_cleanData d i e :
  nth_error d i = Some e -> (i < MAX_ORDERED_DATA_ITEMS)%nat ->
  nth_error (cleanData d) i = Some (clean_item e).
Proof.
  intros He Hi. unfold cleanData. rewrite nth_error_map, nth_error_firstn.
  apply Nat.ltb_lt in Hi. rewrite Hi, He. reflexivity.
Qed.

Lemma length_loadHistory JSON_parse set_outcome store st' :
  loadHistory JSON_parse set_outcome store = Some st' ->
  history st' = [] \/ exists h, history st' = cleanupHistory h.
Proof.
  unfold loadHistory. intros H.
  destruct store as [[|c s]|]; [injection H as <-; auto| |injection H as <-; auto].
  destruct (JSON_parse (c :: s)) as [v|]; [|injection H as <-; auto].
  destruct v; try (injection H as <-; auto; fail).
  destruct (items_of_json l) as [parsed|]; [|discriminate].
  destruct (Nat.eqb _ _); [injection H as <-; right; eexists; reflexivity|].
  match type of H with context [safeSetItem ?p ?o ?v ?w] =>
    destruct (safeSetItem p o v w) as [[b s']|];
      [injection H as <-; right; eexists; reflexivity|discriminate]
  end.
Qed.

Lemma ids_cleanupHistory x h : In x (map id (cleanupHistory h)) -> In x (map id h).
Proof.
  intros Hx. apply in_map_iff in Hx as [r [<- Hr]].
  assert (Hall : Forall (fun r => In (id r) (map id h)) (cleanupHistory h)).
  { apply Forall_cleanupHistory; [intros y Hy; exact Hy|].
    apply Forall_forall. intros y Hy. apply in_map, Hy. }
  rewrite Forall_forall in Hall. apply Hall, Hr.
Qed.

Lemma sort_desc_newest x l :
  Forall (fun r => timestamp r <= timestamp x) l -> sort_desc (x :: l) = x :: sort_desc l.
Proof.
  intros H. simpl. apply (Forall_sort_desc _ _) in H.
  destruct (sort_desc l) as [|y r]; [reflexivity|]. simpl.
  inversion H; subst. apply Z.leb_le in H2. rewrite H2. reflexivity.
Qed.

Lemma cleanupHistory_newest x l :
  Forall (fun r => timestamp r <= timestamp x) l ->
  exists y t, cleanupHistory (x :: l) = y :: t /\ id y = id x.
Proof.
  intros H. rewrite cleanupHistory_reduced. unfold reduced, sorted_prefix.
  rewrite (sort_desc_newest _ _ H). simpl firstn.
  destruct (getStorageSize _ >? _); simpl map;
    match goal with |- context [drop_oldest ?f (?y :: ?t)] =>
      destruct (drop_oldest_head f y t) as [t' Ht']; rewrite Ht'; exists y, t'; auto
    end.
Qed.

(** ** Sizes *)

Lemma utf8_len_ge_length_aux n s :
  (length s <= n)%nat -> Z.of_nat (length s) <= utf8_len s.
Proof.
  revert s. induction n as [|n IH]; intros [|c r] Hl; cbn [length utf8_len] in *;
    try lia.
  destruct (is_high c).
  - destruct r as [|d r']; [cbn [length]; lia|].
    cbn [length] in *. destruct (is_low d).
    + assert (Z.of_nat (length r') <= utf8_len r') by (apply IH; lia). lia.
    + assert (Z.of_nat (length (d :: r')) <= utf8_len (d :: r')) by (apply IH; cbn [length]; lia).
      cbn [length] in *. lia.
  - assert (Z.of_nat (length r) <= utf8_len r) by (apply IH; lia).
    destruct (c <? 128); [|destruct (c <? 2048)]; lia.
Qed.

Lemma utf8_len_ge_length s : Z.of_nat (length s) <= utf8_len s.
Proof. apply (utf8_len_ge_length_aux (length s)). lia. Qed.

Lemma length_esc_char c : (1 <= length (esc_char c))%nat.
Proof.
  unfold esc_char.
  repeat match goal with |- context [if ?b then _ else _] => destruct b end;
    simpl; lia.
Qed.

Lemma length_quote_body_aux n s :
  (length s <= n)%nat -> (length s <= length (quote_body s))%nat.
Proof.
  revert s. induction n as [|n IH]; intros [|c r] Hl; simpl in *; try lia.
  destruct (is_high c).
  - destruct r as [|d r']; [simpl; lia|].
    destruct (is_low d).
    + simpl. assert (length r' <= length (quote_body r'))%nat by (apply IH; simpl in Hl; lia).
      lia.
    + rewrite ?length_app. assert (length (d :: r') <= length (quote_body (d :: r')))%nat
        by (apply IH; lia). simpl length in *. lia.
  - assert (length r <= length (quote_body r))%nat by (apply IH; lia).
    destruct (is_low c); rewrite ?length_app;
      [simpl length; lia | pose proof (length_esc_char c); lia].
Qed.

Lemma length_quote_body s : (length s <= length (quote_body s))%nat.
Proof. apply (length_quote_body_aux (length s)). lia. Qed.

Lemma history_json_link_length y s :
  orderedData y = [link_entry s] -> (length s < length (history_json [y]))%nat.
Proof.
  intros H. unfold history_json. cbn [map]. unfold item_json. rewrite H. simpl.
  pose proof (length_quote_body s).
  repeat (rewrite ?length_app; simpl). lia.
Qed.

Lemma cleanupHistory_single x :
  cleanupHistory [x] = [x] \/ cleanupHistory [x] = [shrink_item x].
Proof.
  rewrite cleanupHistory_reduced. unfold reduced, sorted_prefix.
  change (firstn MAX_HISTORY_ITEMS (sort_desc [x])) with [x].
  destruct (getStorageSize [x] >? MAX_STORAGE_SIZE); [right|left];
    simpl; rewrite andb_false_r; reflexivity.
Qed.

Lemma cleanData_link s : cleanData [link_entry s] = [link_entry s].
Proof. reflexivity. Qed.

Lemma save_link_accepted s :
  saveResearch json_parse accept_all 1 1 (js "q") (js "a") [link_entry s] st_empty =
  Some (to_decimal 1,
        mkState (cleanupHistory [new_item 1 1 (js "q") (js "a") [link_entry s]])
          (Some (history_json (cleanupHistory [new_item 1 1 (js "q") (js "a") [link_entry s]])))).
Proof. reflexivity. Qed.

(** * Claims *)

(** C1 (amended).  The answer stored in the new record of [saveResearch]:
    longer than 5000 characters, it is its first 5000 characters followed
    by the ellipsis ['...'], hence 5003 characters; otherwise it is the
    answer unchanged. *)
Theorem save_answer_truncation t_id t_ts q a od :
  ((MAX_ANSWER_LENGTH < length a)%nat ->
     answer (new_item t_id t_ts q a od) = firstn MAX_ANSWER_LENGTH a ++ ellipsis /\
     length (answer (new_item t_id t_ts q a od)) = (MAX_ANSWER_LENGTH + 3)%nat) /\
  ((length a <= MAX_ANSWER_LENGTH)%nat -> answer (new_item t_id t_ts q a od) = a).
Proof.
  simpl. unfold clean_answer, substring0. split; intros H.
  - apply Nat.ltb_lt in H. rewrite H. split; [reflexivity|].
    apply Nat.ltb_lt in H. rewrite length_app, length_firstn, Nat.min_l by lia.
    reflexivity.
  - apply Nat.ltb_ge in H. rewrite H. reflexivity.
Qed.

Lemma save_answer_truncation_witness :
  (MAX_ANSWER_LENGTH < length (repeat 65 (MAX_ANSWER_LENGTH + 1000)))%nat /\
  answer (new_item 1 1 (js "What is X?") (repeat 65 (MAX_ANSWER_LENGTH + 1000)) [])
    = firstn MAX_ANSWER_LENGTH (repeat 65 (MAX_ANSWER_LENGTH + 1000)) ++ ellipsis.
Proof.
  assert (H : (MAX_ANSWER_LENGTH < length (repeat 65 (MAX_ANSWER_LENGTH + 1000)))%nat)
    by (rewrite repeat_length; lia).
  split; [exact H|].
  apply (proj1 (save_answer_truncation 1 1 (js "What is X?") (repeat 65 (MAX_ANSWER_LENGTH + 1000)) []) H).
Defined.

(** C1 refuted.  Saving a 5001-character answer into an empty history
    with a store that accepts the write keeps and persists a record whose
    answer is longer than 5000 characters. *)
Lemma save_answer_over_limit :
  match saveResearch json_parse accept_all 1 1 (js "What is X?") (repeat 65 (MAX_ANSWER_LENGTH + 1)) [] st_empty with
  | Some (_, st') =>
      history st' <> [] /\ storage st' = Some (history_json (history st')) /\
      Forall (fun r => ~ (length (answer r) <= MAX_ANSWER_LENGTH)%nat) (history st')
  | None => False
  end.
Proof.
  assert (Hc : option_map (fun p => persisted_as_history (snd p) &&
                 forallb (fun r => MAX_ANSWER_LENGTH <? length (answer r))%nat
                   (history (snd p)) && negb (Nat.eqb (length (history (snd p))) 0))
                 (saveResearch json_parse accept_all 1 1 (js "What is X?")
                    (repeat 65 (MAX_ANSWER_LENGTH + 1)) [] st_empty) = Some true)
    by (vm_compute; reflexivity).
  destruct (saveResearch _ _ _ _ _ _ _ _) as [[i st']|]; [|discriminate].
  injection Hc as Hc.
  apply andb_prop in Hc as [Hc Hn]. apply andb_prop in Hc as [Hp Hf].
  split; [destruct (history st'); discriminate|].
  split; [apply persisted_as_history_spec, Hp|].
  apply Forall_forall. intros r Hr Hle. rewrite forallb_forall in Hf.
  specialize (Hf r Hr). apply Nat.ltb_lt in Hf. lia.
Qed.

(** C3.  Compaction leaves at most 15 records, and so do [saveResearch] and
    the load effect, whatever the history they start from (hence after any
    sequence of saves). *)
Theorem history_count_bounded :
  (forall h, (length (cleanupHistory h) <= MAX_HISTORY_ITEMS)%nat) /\
  (forall JSON_parse set_outcome t_id t_ts q a od st i st',
     saveResearch JSON_parse set_outcome t_id t_ts q a od st = Some (i, st') ->
     (length (history st') <= MAX_HISTORY_ITEMS)%nat) /\
  (forall JSON_parse set_outcome store st',
     loadHistory JSON_parse set_outcome store = Some st' ->
     (length (history st') <= MAX_HISTORY_ITEMS)%nat).
Proof.
  split; [exact length_cleanupHistory|]. split.
  - intros JSON_parse set_outcome t_id t_ts q a od st i st' H.
    apply saveResearch_cases in H as [_ [success [store1 [_ [Ht Hf]]]]].
    destruct success.
    + rewrite (proj1 (Ht eq_refl)). apply length_cleanupHistory.
    + rewrite (proj1 (Hf eq_refl)). pose proof (length_minimalHistory
        (cleanupHistory (new_item t_id t_ts q a od :: history st))).
      unfold MAX_HISTORY_ITEMS. lia.
  - intros JSON_parse set_outcome store st' H.
    destruct (length_loadHistory _ _ _ _ H) as [-> | [h ->]];
      [simpl; unfold MAX_HISTORY_ITEMS; lia | apply length_cleanupHistory].
Qed.

Lemma history_count_bounded_witness :
  exists i st',
    saveResearch json_parse accept_all 1 1 (js "q") (js "a") [] st_empty = Some (i, st') /\
    (length (history st') <= MAX_HISTORY_ITEMS)%nat.
Proof.
  assert (Hs : is_some (saveResearch json_parse accept_all 1 1 (js "q") (js "a") []
                          st_empty) = true) by (vm_compute; reflexivity).
  destruct (saveResearch _ _ _ _ _ _ _ _) as [[i st']|] eqn:E; [|discriminate].
  exists i, st'. split; [reflexivity|].
  exact (proj1 (proj2 history_count_bounded) _ _ _ _ _ _ _ _ _ _ E).
Defined.

(** C5.  After [saveResearch] (from any history, hence after any sequence
    of saves) and after the load effect, the in-memory history is sorted by
    timestamp, newest first. *)
Theorem history_sorted_newest_first :
  (forall JSON_parse set_outcome t_id t_ts q a od st i st',
     saveResearch JSON_parse set_outcome t_id t_ts q a od st = Some (i, st') ->
     Sorted newest_first (history st')) /\
  (forall JSON_parse set_outcome store st',
     loadHistory JSON_parse set_outcome store = Some st' ->
     Sorted newest_first (history st')).
Proof.
  split.
  - intros JSON_parse set_outcome t_id t_ts q a od st i st' H.
    apply saveResearch_cases in H as [_ [success [store1 [_ [Ht Hf]]]]].
    destruct success.
    + rewrite (proj1 (Ht eq_refl)). apply Sorted_cleanupHistory.
    + rewrite (proj1 (Hf eq_refl)). apply Sorted_minimalHistory, Sorted_cleanupHistory.
  - intros JSON_parse set_outcome store st' H.
    destruct (length_loadHistory _ _ _ _ H) as [-> | [h ->]];
      [constructor | apply Sorted_cleanupHistory].
Qed.

Lemma history_sorted_newest_first_witness :
  exists i st',
    saveResearch json_parse accept_all 5 5 (js "q2") (js "a2") []
      (mkState [mkItem (js "1") (js "q1") (js "a1") 1 []] None) = Some (i, st') /\
    Sorted newest_first (history st').
Proof.
  assert (Hs : is_some (saveResearch json_parse accept_all 5 5 (js "q2") (js "a2") []
                 (mkState [mkItem (js "1") (js "q1") (js "a1") 1 []] None)) = true)
    by (vm_compute; reflexivity).
  destruct (saveResearch _ _ _ _ _ _ _ _) as [[i st']|] eqn:E; [|discriminate].
  exists i, st'. split; [reflexivity|].
  exact (proj1 history_sorted_newest_first _ _ _ _ _ _ _ _ _ _ E).
Defined.

(** C6.  After the first stage (newest first, first 15 records kept): when
    the serialized size exceeds 4 MiB, the result of compaction is a prefix
    of the records with their answer cut to its first 2500 characters (plus
    ['...'] when it was longer) and their orderedData cut to its first 2
    entries; otherwise the result is exactly that first-stage list, with
    answers and orderedData unchanged. *)
Theorem compaction_reduces_records h :
  let base := sorted_prefix h in
  if getStorageSize base >? MAX_STORAGE_SIZE then
    exists k, cleanupHistory h =
      firstn k (map (fun r =>
        {| id := id r; question := question r;
           answer := firstn 2500 (answer r) ++
                     (if (2500 <? length (answer r))%nat then ellipsis else []);
           timestamp := timestamp r;
           orderedData := firstn 2 (orderedData r) |}) base)
  else cleanupHistory h = base.
Proof.
  intros base. rewrite cleanupHistory_reduced. unfold reduced. fold base.
  destruct (getStorageSize base >? MAX_STORAGE_SIZE) eqn:E.
  - apply drop_oldest_prefix.
  - destruct base as [|r t]; [reflexivity|]. simpl length. simpl drop_oldest.
    rewrite E. reflexivity.
Qed.

(** C8.  When exactly one record carries the id, [deleteResearch] leaves
    one record less, none with that id, and the other records unchanged
    and in their order. *)
Theorem delete_removes_exactly_one JSON_parse set_outcome i st st' :
  deleteResearch JSON_parse set_outcome i st = Some st' ->
  length (filter (fun r => jsstring_eqb (id r) i) (history st)) = 1%nat ->
  length (history st') = (length (history st) - 1)%nat /\
  Forall (fun r => id r <> i) (history st') /\
  history st' = filter (fun r => negb (jsstring_eqb (id r) i)) (history st).
Proof.
  unfold deleteResearch. intros H Hone.
  match type of H with context [safeSetItem ?p ?o ?v ?w] =>
    destruct (safeSetItem p o v w) as [[b s']|]; [|discriminate]
  end.
  injection H as <-. simpl.
  pose proof (length_filter_split (fun r => jsstring_eqb (id r) i) (history st)) as Hl.
  split; [lia|]. split; [|reflexivity].
  apply Forall_forall. intros r Hr Heq. apply filter_In in Hr as [_ Hr].
  rewrite Heq, jsstring_eqb_refl in Hr. discriminate.
Qed.

Lemma delete_removes_exactly_one_witness :
  exists st',
    deleteResearch json_parse accept_all (js "2")
      (mkState [mkItem (js "3") (js "q3") (js "a3") 3 [];
                mkItem (js "2") (js "q2") (js "a2") 2 [];
                mkItem (js "1") (js "q1") (js "a1") 1 []] None) = Some st' /\
    length (history st') = 2%nat.
Proof.
  assert (Hs : is_some (deleteResearch json_parse accept_all (js "2")
      (mkState [mkItem (js "3") (js "q3") (js "a3") 3 [];
                mkItem (js "2") (js "q2") (js "a2") 2 [];
                mkItem (js "1") (js "q1") (js "a1") 1 []] None)) = true)
    by (vm_compute; reflexivity).
  destruct (deleteResearch _ _ _ _) as [st'|] eqn:E; [|discriminate].
  exists st'. split; [reflexivity|].
  exact (proj1 (delete_removes_exactly_one _ _ _ _ _ E ltac:(vm_compute; reflexivity))).
Defined.

(** Closes a goal whose hypothesis [Hin] says an entry type is in a list
    of string literals it differs from. *)
Ltac kill_variant_in :=
  match goal with
  | Hin : _ \/ _ |- _ => destruct Hin as [Hin|Hin]; kill_variant_in
  | Hin : False |- _ => contradiction
  | Hin : JStr _ = JStr _ |- _ =>
      injection Hin as Hin; first [discriminate Hin | subst; simpl in *; congruence]
  end.

(** C9.  In the cleaning of orderedData, among the entries kept (the first
    three): a [content] field of a basic, differences, question, chat or
    error entry that is not a string comes out unchanged, an [output] field
    of a differences or error entry that is not a string comes out
    unchanged, and an entry of any other type comes out unchanged. *)
Theorem cleanData_keeps_non_strings d i e :
  nth_error d i = Some e -> (i < MAX_ORDERED_DATA_ITEMS)%nat ->
  exists e', nth_error (cleanData d) i = Some e' /\
    (In (get (js "type") e) content_variants ->
       (forall s, get (js "content") e <> JStr s) ->
       get (js "content") e' = get (js "content") e) /\
    (In (get (js "type") e) output_variants ->
       (forall s, get (js "output") e <> JStr s) ->
       get (js "output") e' = get (js "output") e) /\
    (~ In (get (js "type") e) known_variants -> e' = e).
Proof.
  intros Hn Hi. exists (clean_item e). split; [apply nth_error_cleanData; assumption|].
  unfold clean_item.
  destruct (get (js "type") e) as [| | | |t| |] eqn:Et;
    try (split; [intros Hin; simpl in Hin; intuition discriminate|];
         split; [intros Hin; simpl in Hin; intuition discriminate|]; reflexivity).
  repeat match goal with
  | |- context [if jsstring_eqb t ?k then _ else _] =>
      let E := fresh "E" in destruct (jsstring_eqb t k) eqn:E;
      [apply jsstring_eqb_spec in E; subst t|]
  end;
  (split; [intros Hin Hns; simpl in Hin|];
   [|split; [intros Hin Hns; simpl in Hin|]]);
  try (intros Hk; exfalso; apply Hk; simpl; tauto);
  try (simpl; rewrite ?clean_content_non_string, ?clean_output_non_string by assumption;
       reflexivity);
  try (intros _; reflexivity);
  try (exfalso; kill_variant_in).
Qed.

Lemma cleanData_keeps_non_strings_witness :
  exists e', nth_error (cleanData [[(js "type", JStr (js "chat")); (js "content", JNum 7)]]) 0
               = Some e' /\ get (js "content") e' = JNum 7.
Proof.
  destruct (cleanData_keeps_non_strings
              [[(js "type", JStr (js "chat")); (js "content", JNum 7)]] 0
              [(js "type", JStr (js "chat")); (js "content", JNum 7)]
              eq_refl ltac:(unfold MAX_ORDERED_DATA_ITEMS; lia)) as [e' [He [Hc _]]].
  exists e'. split; [exact He|]. apply Hc; [simpl; tauto|]. intros s' Hs'. discriminate.
Defined.

(** C2 (amended).  For any [JSON.parse] and store, loading a value that is
    not an array yields an empty history and no error: a non-empty text
    that fails to parse is removed from storage; a value that parses to
    something other than an array, and the empty string, are left in
    place. *)
Theorem load_malformed_value JSON_parse set_outcome :
  (forall s, s <> [] -> JSON_parse s = None ->
     loadHistory JSON_parse set_outcome (Some s) = Some (mkState [] None)) /\
  (forall s v, JSON_parse s = Some v -> (forall l, v <> JArr l) ->
     loadHistory JSON_parse set_outcome (Some s) = Some (mkState [] (Some s))) /\
  loadHistory JSON_parse set_outcome (Some []) = Some (mkState [] (Some [])).
Proof.
  split; [|split; [|reflexivity]].
  - intros [|c s] Hne Hp; [contradiction|]. unfold loadHistory. rewrite Hp. reflexivity.
  - intros [|c s] v Hp Hv; [reflexivity|]. unfold loadHistory. rewrite Hp.
    destruct v; try reflexivity. exfalso. eapply Hv. reflexivity.
Qed.

Lemma load_malformed_value_witness :
  loadHistory json_parse accept_all (Some (js "{")) = Some (mkState [] None) /\
  loadHistory json_parse accept_all (Some (js "42")) = Some (mkState [] (Some (js "42"))).
Proof.
  split.
  - apply (proj1 (load_malformed_value json_parse accept_all)).
    + discriminate.
    + vm_compute. reflexivity.
  - apply (proj1 (proj2 (load_malformed_value json_parse accept_all)) _ (JNum 42)).
    + vm_compute. reflexivity.
    + intros l. discriminate.
Defined.

(** C2 refuted.  The stored text ["null"] parses to a non-array: the load
    effect yields an empty history but leaves the key in storage. *)
Lemma load_non_array_keeps_key :
  match loadHistory json_parse accept_all (Some (js "null")) with
  | Some st' => history st' = [] /\ storage st' = Some (js "null")
  | None => False
  end.
Proof. vm_compute. split; reflexivity. Qed.

(** C7 (amended).  When the first [safeSetItem] of [saveResearch] reports
    failure, the in-memory history becomes the minimal version of the
    compacted history (at most 5 records, question at most 100 and answer
    at most 500 characters, empty orderedData); it is persisted only if the
    store accepts that last write, which the code does not check.  When
    the first [safeSetItem] reports success, the in-memory history is the
    compacted history. *)
Theorem save_minimal_fallback JSON_parse set_outcome t_id t_ts q a od st i st' success store1 :
  let cleaned := cleanupHistory (new_item t_id t_ts q a od :: history st) in
  saveResearch JSON_parse set_outcome t_id t_ts q a od st = Some (i, st') ->
  safeSetItem JSON_parse set_outcome (history_json cleaned) (storage st)
    = Some (success, store1) ->
  i = id (new_item t_id t_ts q a od) /\
  (success = true -> history st' = cleaned) /\
  (success = false ->
     history st' = minimalHistory cleaned /\
     (length (history st') <= 5)%nat /\
     Forall (fun r => (length (question r) <= 100)%nat /\
                      (length (answer r) <= 500)%nat /\ orderedData r = [])
       (history st') /\
     (set_outcome store1 (history_json (history st')) = SetOk ->
        storage st' = Some (history_json (history st')))).
Proof.
  intros cleaned Hs H1.
  pose proof (saveResearch_cases _ _ _ _ _ _ _ _ _ _ Hs) as [Hi [b [s1 [H1' [Ht Hf]]]]].
  fold cleaned in H1', Ht, Hf. rewrite H1 in H1'. injection H1' as <- <-.
  split; [exact Hi|]. split; [intros ->; apply (proj1 (Ht eq_refl))|].
  intros ->. destruct (Hf eq_refl) as [Hm [b2 H2]]. rewrite Hm.
  split; [reflexivity|]. split; [apply length_minimalHistory|]. split.
  - unfold minimalHistory. apply Forall_map, Forall_forall. intros r _.
    unfold minimal_item, substring0. cbn [question answer orderedData].
    rewrite !length_firstn. split; [lia|split; [lia|reflexivity]].
  - intros Hok. unfold safeSetItem in H2. rewrite Hok in H2. injection H2 as _ <-.
    reflexivity.
Qed.

Lemma save_minimal_fallback_witness :
  exists i st' store1,
    saveResearch json_parse (quota 60) 1 1 (js "q") (repeat 65 100) [] st_empty
      = Some (i, st') /\
    safeSetItem json_parse (quota 60)
      (history_json (cleanupHistory [new_item 1 1 (js "q") (repeat 65 100) []])) None
      = Some (false, store1) /\
    history st' = minimalHistory (cleanupHistory [new_item 1 1 (js "q") (repeat 65 100) []]).
Proof.
  assert (Hs : is_some (saveResearch json_parse (quota 60) 1 1 (js "q") (repeat 65 100) []
                          st_empty) = true) by (vm_compute; reflexivity).
  destruct (saveResearch _ _ _ _ _ _ _ _) as [[i st']|] eqn:E; [|discriminate].
  assert (H1 : safeSetItem json_parse (quota 60)
      (history_json (cleanupHistory [new_item 1 1 (js "q") (repeat 65 100) []])) None
      = Some (false, None)) by (vm_compute; reflexivity).
  exists i, st', None. split; [reflexivity|]. split; [exact H1|].
  exact (proj1 (proj2 (proj2 (save_minimal_fallback _ _ _ _ _ _ _ _ _ _ _ _ E H1)) eq_refl)).
Defined.

(** C7 refuted.  With a store that refuses every write, the fallback is
    used but nothing is persisted. *)
Lemma save_fallback_not_persisted :
  match saveResearch json_parse refuse_all 1 1 (js "q") (js "a") [] st_empty with
  | Some (_, st') =>
      history st' = minimalHistory (cleanupHistory [new_item 1 1 (js "q") (js "a") []]) /\
      storage st' = None
  | None => False
  end.
Proof. vm_compute. split; reflexivity. Qed.

(** C10.  When the first write of [saveResearch] is refused for quota and
    the recovery writes the compacted stale value read back from storage,
    [safeSetItem] reports success, so the minimal fallback is skipped: the
    store then holds the compacted stale history, which has no record with
    the new id, while [saveResearch] returns the new id and the in-memory
    history is the compacted history starting with the new record.  The
    new id is fresh for the stale records and the new timestamp is not
    older than the in-memory records, as [Date.now()] gives. *)
Theorem save_quota_recovery_diverges JSON_parse set_outcome t_id t_ts q a od st cur v h_old :
  let newItem := new_item t_id t_ts q a od in
  let cleaned := cleanupHistory (newItem :: history st) in
  storage st = Some cur -> cur <> [] ->
  set_outcome (storage st) (history_json cleaned) = QuotaExceeded ->
  JSON_parse cur = Some v ->
  match v with JArr l => items_of_json l | _ => Some [] end = Some h_old ->
  set_outcome (storage st) (history_json (cleanupHistory h_old)) = SetOk ->
  ~ In (id newItem) (map id h_old) ->
  Forall (fun r => timestamp r <= t_ts) (history st) ->
  exists st',
    saveResearch JSON_parse set_outcome t_id t_ts q a od st = Some (id newItem, st') /\
    storage st' = Some (history_json (cleanupHistory h_old)) /\
    ~ In (id newItem) (map id (cleanupHistory h_old)) /\
    history st' = cleaned /\
    In (id newItem) (map id (history st')).
Proof.
  intros newItem cleaned Hst Hne Hq Hp Hv Hok Hfresh Hts.
  assert (Hsafe : safeSetItem JSON_parse set_outcome (history_json cleaned) (storage st)
                  = Some (true, Some (history_json (cleanupHistory h_old)))).
  { unfold safeSetItem. rewrite Hq. rewrite Hst in *. destruct cur as [|c cur'];
      [contradiction|]. rewrite Hp, Hv, Hok. reflexivity. }
  exists (mkState cleaned (Some (history_json (cleanupHistory h_old)))).
  split; [unfold saveResearch; fold newItem cleaned; rewrite Hsafe; reflexivity|].
  split; [reflexivity|]. split; [intros Hin; apply Hfresh, ids_cleanupHistory, Hin|].
  split; [reflexivity|]. simpl.
  destruct (cleanupHistory_newest newItem (history st) Hts) as [y [t [Hc Hy]]].
  fold cleaned in Hc. rewrite Hc. simpl. left. exact Hy.
Qed.

Lemma save_quota_recovery_diverges_witness :
  exists st',
    saveResearch json_parse (quota 120) 2 2 (js "q") (repeat 65 300) []
      (mkState [] (Some (history_json [mkItem (js "1") (js "old") (js "a") 1 []])))
      = Some (to_decimal 2, st') /\
    storage st' = Some (history_json (cleanupHistory [mkItem (js "1") (js "old") (js "a") 1 []])) /\
    In (to_decimal 2) (map id (history st')).
Proof.
  destruct (save_quota_recovery_diverges json_parse (quota 120) 2 2 (js "q") (repeat 65 300) []
              (mkState [] (Some (history_json [mkItem (js "1") (js "old") (js "a") 1 []])))
              (history_json [mkItem (js "1") (js "old") (js "a") 1 []])
              (JArr [item_json (mkItem (js "1") (js "old") (js "a") 1 [])])
              [mkItem (js "1") (js "old") (js "a") 1 []])
    as [st' [H1 [H2 [_ [_ H3]]]]].
  - reflexivity.
  - vm_compute. discriminate.
  - vm_compute. reflexivity.
  - vm_compute. reflexivity.
  - vm_compute. reflexivity.
  - vm_compute. reflexivity.
  - vm_compute. intros [H|H]; [discriminate H|exact H].
  - constructor.
  - exists st'. split; [exact H1|]. split; [exact H2|exact H3].
Defined.

(** C4 (amended).  [saveResearch] leaves in memory either the compacted
    history, whose serialized size is at most 4 MiB unless it holds a single
    record, or (after a refused write) its minimal version, whose size is
    not checked; [deleteResearch] does no compaction and only removes the
    records with the id; [clearHistory] leaves the empty history, of
    serialized size 2 bytes. *)
Theorem storage_size_after_mutations :
  (forall JSON_parse set_outcome t_id t_ts q a od st i st',
     saveResearch JSON_parse set_outcome t_id t_ts q a od st = Some (i, st') ->
     let cleaned := cleanupHistory (new_item t_id t_ts q a od :: history st) in
     (history st' = cleaned /\
      (getStorageSize (history st') <= MAX_STORAGE_SIZE \/ (length (history st') <= 1)%nat)) \/
     history st' = minimalHistory cleaned) /\
  (forall JSON_parse set_outcome i st st',
     deleteResearch JSON_parse set_outcome i st = Some st' ->
     history st' = filter (fun r => negb (jsstring_eqb (id r) i)) (history st)) /\
  (forall st, getStorageSize (history (clearHistory st)) = 2 /\
              getStorageSize (history (clearHistory st)) <= MAX_STORAGE_SIZE).
Proof.
  split; [|split].
  - intros JSON_parse set_outcome t_id t_ts q a od st i st' H cleaned.
    apply saveResearch_cases in H as [_ [success [store1 [_ [Ht Hf]]]]].
    destruct success.
    + left. rewrite (proj1 (Ht eq_refl)). split; [reflexivity|]. apply cleanupHistory_size.
    + right. apply (proj1 (Hf eq_refl)).
  - intros JSON_parse set_outcome i st st' H. unfold deleteResearch in H.
    match type of H with context [safeSetItem ?p ?o ?v ?w] =>
      destruct (safeSetItem p o v w) as [[b s']|]; [|discriminate]
    end.
    injection H as <-. reflexivity.
  - intros st. assert (H : getStorageSize (history (clearHistory st)) = 2) by reflexivity.
    split; [exact H|]. rewrite H. unfold MAX_STORAGE_SIZE. lia.
Qed.

Lemma storage_size_after_mutations_witness :
  exists i st',
    saveResearch json_parse accept_all 1 1 (js "q") (js "a") [] st_empty = Some (i, st') /\
    getStorageSize (history st') <= MAX_STORAGE_SIZE.
Proof.
  assert (Hs : is_some (saveResearch json_parse accept_all 1 1 (js "q") (js "a") []
                          st_empty) = true) by (vm_compute; reflexivity).
  destruct (saveResearch _ _ _ _ _ _ _ _) as [[i st']|] eqn:E; [|discriminate].
  exists i, st'. split; [reflexivity|].
  destruct (proj1 storage_size_after_mutations _ _ _ _ _ _ _ _ _ _ E) as [[_ [Hle|Hl]]|Hm].
  - exact Hle.
  - assert (Hsz : option_map (fun p => getStorageSize (history (snd p)) <=? MAX_STORAGE_SIZE)
                    (saveResearch json_parse accept_all 1 1 (js "q") (js "a") [] st_empty)
                  = Some true) by (vm_compute; reflexivity).
    rewrite E in Hsz. injection Hsz as Hsz. apply Z.leb_le, Hsz.
  - assert (Hsz : option_map (fun p => getStorageSize (history (snd p)) <=? MAX_STORAGE_SIZE)
                    (saveResearch json_parse accept_all 1 1 (js "q") (js "a") [] st_empty)
                  = Some true) by (vm_compute; reflexivity).
    rewrite E in Hsz. injection Hsz as Hsz. apply Z.leb_le, Hsz.
Defined.

(** C4 refuted.  Saving, into an empty history with a store that accepts
    the write, an entry whose link has 4 MiB characters leaves (and
    persists) a one-record history whose serialized size exceeds 4 MiB. *)
Lemma save_oversized_single_record :
  match saveResearch json_parse accept_all 1 1 (js "q") (js "a") [link_entry big_link] st_empty with
  | Some (_, st') =>
      getStorageSize (history st') > MAX_STORAGE_SIZE /\
      storage st' = Some (history_json (history st'))
  | None => False
  end.
Proof.
  rewrite save_link_accepted. cbn [history storage]. split; [|reflexivity].
  assert (Hlen : Z.of_nat (length big_link) = MAX_STORAGE_SIZE).
  { unfold big_link. rewrite repeat_length, N_nat_Z. reflexivity. }
  destruct (cleanupHistory_single (new_item 1 1 (js "q") (js "a") [link_entry big_link]))
    as [-> | ->];
    [pose proof (history_json_link_length
                   (new_item 1 1 (js "q") (js "a") [link_entry big_link]) big_link eq_refl) as Hj
    |pose proof (history_json_link_length
                   (shrink_item (new_item 1 1 (js "q") (js "a") [link_entry big_link]))
                   big_link eq_refl) as Hj];
    unfold getStorageSize;
    pose proof (utf8_len_ge_length
                  (history_json [new_item 1 1 (js "q") (js "a") [link_entry big_link]]));
    pose proof (utf8_len_ge_length
                  (history_json [shrink_item (new_item 1 1 (js "q") (js "a")
                                                [link_entry big_link])]));
    lia.
Qed.

(** * Further properties of the hook, the chat route and their callers *)

(** ** Helpers *)

Lemma trunc_idem n (e a : jsstring) :
  (1 <= length e)%nat ->
  let t := firstn n a ++ (if (n <? length a)%nat then e else []) in
  firstn n t ++ (if (n <? length t)%nat then e else []) = t.
Proof.
  intros He t. unfold t. destruct (n <? length a)%nat eqn:E.
  - apply Nat.ltb_lt in E.
    assert (Hf : length (firstn n a) = n) by (rewrite length_firstn; lia).
    rewrite firstn_app, Hf, Nat.sub_diag, firstn_O, app_nil_r, firstn_firstn,
      Nat.min_id, length_app, Hf.
    replace (n <? n + length e)%nat with true by (symmetry; apply Nat.ltb_lt; lia).
    reflexivity.
  - apply Nat.ltb_ge in E. rewrite app_nil_r, !(firstn_all2 a E).
    apply Nat.ltb_ge in E. rewrite E, app_nil_r. reflexivity.
Qed.

Lemma length_ellipsis : length ellipsis = 3%nat.
Proof. reflexivity. Qed.

Lemma clean_content_idem c : clean_content (clean_content c) = clean_content c.
Proof.
  destruct c as [| | | |s| |]; try reflexivity. unfold clean_content, substring0.
  rewrite (trunc_idem 1000 ellipsis s) by (rewrite length_ellipsis; lia). reflexivity.
Qed.

Lemma clean_output_alt s :
  clean_output (JStr s) = JStr (firstn 500 s ++ (if (500 <? length s)%nat then ellipsis else [])).
Proof.
  unfold clean_output, substring0. destruct (500 <? length s)%nat eqn:E; [reflexivity|].
  apply Nat.ltb_ge in E. rewrite app_nil_r, firstn_all2 by exact E. reflexivity.
Qed.

Lemma clean_output_idem o : clean_output (clean_output o) = clean_output o.
Proof.
  destruct o as [| | | |s| |]; try reflexivity. rewrite !clean_output_alt.
  rewrite (trunc_idem 500 ellipsis s) by (rewrite length_ellipsis; lia). reflexivity.
Qed.

Lemma clean_item_content t c :
  In t ["basic"; "question"; "chat"]%string ->
  clean_item [(js "type", JStr (js t)); (js "content", c)] =
  [(js "type", JStr (js t)); (js "content", clean_content c)].
Proof. intros [<-|[<-|[<-|[]]]]; reflexivity. Qed.

Lemma clean_item_output t c o :
  In t ["differences"; "error"]%string ->
  clean_item [(js "type", JStr (js t)); (js "content", c); (js "output", o)] =
  [(js "type", JStr (js t)); (js "content", clean_content c); (js "output", clean_output o)].
Proof. intros [<-|[<-|[]]]; reflexivity. Qed.

Lemma clean_item_link l :
  clean_item [(js "type", JStr (js "langgraphButton")); (js "link", l)] =
  [(js "type", JStr (js "langgraphButton")); (js "link", l)].
Proof. reflexivity. Qed.

Lemma clean_item_idem e : clean_item (clean_item e) = clean_item e.
Proof.
  unfold clean_item at 2 3.
  destruct (get (js "type") e) as [| | | |t| |] eqn:Et;
    try (unfold clean_item; rewrite Et; reflexivity).
  cbv beta iota zeta.
  destruct (jsstring_eqb t (js "basic")) eqn:E1;
    [rewrite clean_item_content, clean_content_idem by (simpl; auto); reflexivity|].
  destruct (jsstring_eqb t (js "langgraphButton")) eqn:E2; [apply clean_item_link|].
  destruct (jsstring_eqb t (js "differences")) eqn:E3;
    [rewrite clean_item_output, clean_content_idem, clean_output_idem by (simpl; auto);
     reflexivity|].
  destruct (jsstring_eqb t (js "question")) eqn:E4;
    [rewrite clean_item_content, clean_content_idem by (simpl; auto); reflexivity|].
  destruct (jsstring_eqb t (js "chat")) eqn:E5;
    [rewrite clean_item_content, clean_content_idem by (simpl; auto); reflexivity|].
  destruct (jsstring_eqb t (js "error")) eqn:E6;
    [rewrite clean_item_output, clean_content_idem, clean_output_idem by (simpl; auto);
     reflexivity|].
  unfold clean_item. rewrite Et, E1, E2, E3, E4, E5, E6. reflexivity.
Qed.

Lemma cleanData_idem d : cleanData (cleanData d) = cleanData d.
Proof.
  unfold cleanData. rewrite firstn_map, firstn_firstn, Nat.min_id, map_map.
  apply map_ext, clean_item_idem.
Qed.

Lemma clean_answer_alt a :
  clean_answer a =
  firstn MAX_ANSWER_LENGTH a ++ (if (MAX_ANSWER_LENGTH <? length a)%nat then ellipsis else []).
Proof.
  unfold clean_answer, substring0. destruct (_ <? _)%nat eqn:E; [reflexivity|].
  apply Nat.ltb_ge in E. rewrite app_nil_r, firstn_all2 by exact E. reflexivity.
Qed.

Lemma clean_answer_idem a : clean_answer (clean_answer a) = clean_answer a.
Proof.
  rewrite (clean_answer_alt (clean_answer a)), (clean_answer_alt a).
  apply trunc_idem. rewrite length_ellipsis. lia.
Qed.

Lemma clean_answer_short a : (length a <= MAX_ANSWER_LENGTH)%nat -> clean_answer a = a.
Proof.
  intros H. unfold clean_answer. apply Nat.ltb_ge in H. rewrite H. reflexivity.
Qed.

Lemma shrink_item_idem r : shrink_item (shrink_item r) = shrink_item r.
Proof.
  unfold shrink_item. cbn [id question answer timestamp orderedData].
  rewrite firstn_firstn, Nat.min_id. unfold substring0.
  rewrite (trunc_idem (MAX_ANSWER_LENGTH / 2) ellipsis (answer r))
    by (rewrite length_ellipsis; lia).
  reflexivity.
Qed.

(** The shape of a record the hook creates. *)
Lemma stored_record_shape r :
  stored_record r ->
  (length (question r) <= 200)%nat /\ clean_answer (answer r) = answer r /\
  cleanData (orderedData r) = orderedData r.
Proof.
  induction 1 as [t_id t_ts q a od|r Hr [Hq [Ha Hd]]|r Hr [Hq [Ha Hd]]].
  - unfold new_item, substring0. cbn [question answer orderedData].
    rewrite length_firstn, clean_answer_idem, cleanData_idem. split; [lia|auto].
  - unfold shrink_item, substring0. cbn [question answer orderedData].
    split; [exact Hq|]. split.
    + apply clean_answer_short. rewrite length_app, length_firstn.
      assert (Hm : (MAX_ANSWER_LENGTH / 2 + 3 <= MAX_ANSWER_LENGTH)%nat)
        by (apply Nat.leb_le; vm_compute; reflexivity).
      destruct (_ <? _)%nat; rewrite ?length_ellipsis; simpl length; lia.
    + rewrite <- Hd at 2. unfold cleanData.
      rewrite firstn_map, !firstn_firstn. reflexivity.
  - unfold minimal_item, substring0. cbn [question answer orderedData].
    rewrite length_firstn. split; [lia|]. split; [|reflexivity].
    apply clean_answer_short. rewrite length_firstn.
    assert (Hm : (500 <= MAX_ANSWER_LENGTH)%nat)
      by (apply Nat.leb_le; vm_compute; reflexivity).
    lia.
Qed.

Lemma sort_desc_sorted l : Sorted newest_first l -> sort_desc l = l.
Proof.
  induction 1 as [|x r Hr IH Hhd]; [reflexivity|]. simpl. rewrite IH.
  destruct r as [|y r]; [reflexivity|]. inversion Hhd as [|? ? Hxy]; subst.
  unfold newest_first in Hxy. simpl. apply Z.leb_le in Hxy. rewrite Hxy. reflexivity.
Qed.

Lemma drop_oldest_stable f h :
  getStorageSize h <= MAX_STORAGE_SIZE \/ (length h <= 1)%nat -> drop_oldest f h = h.
Proof.
  intros H. destruct f as [|f]; [reflexivity|]. simpl.
  destruct H as [H|H].
  - replace (getStorageSize h >? MAX_STORAGE_SIZE) with false
      by (symmetry; rewrite Z.gtb_ltb; apply Z.ltb_ge; exact H). reflexivity.
  - replace (1 <? length h)%nat with false by (symmetry; apply Nat.ltb_ge; exact H).
    rewrite andb_false_r. reflexivity.
Qed.

(** Either every compacted record is already shrunk, or the compacted
    history fits in the budget. *)
Lemma cleanupHistory_shrunk_or_fits h :
  Forall (fun r => shrink_item r = r) (cleanupHistory h) \/
  getStorageSize (cleanupHistory h) <= MAX_STORAGE_SIZE.
Proof.
  rewrite cleanupHistory_reduced. unfold reduced.
  destruct (getStorageSize (sorted_prefix h) >? MAX_STORAGE_SIZE) eqn:E.
  - left. destruct (drop_oldest_prefix (length (map shrink_item (sorted_prefix h)))
                      (map shrink_item (sorted_prefix h))) as [k ->].
    apply Forall_firstn, Forall_forall. intros r Hr.
    apply in_map_iff in Hr as [x [<- _]]. apply shrink_item_idem.
  - right. rewrite drop_oldest_stable; rewrite Z.gtb_ltb, Z.ltb_ge in E; auto.
Qed.

Lemma data_of_json_map od : data_of_json (map JObj od) = Some od.
Proof. induction od as [|d od IH]; simpl; [reflexivity|]. rewrite IH. reflexivity. Qed.

Lemma items_of_json_map h : items_of_json (map item_json h) = Some h.
Proof.
  induction h as [|[i q a t od] h IH]; [reflexivity|].
  cbn [map items_of_json]. rewrite IH.
  unfold item_json, item_of_json. cbn [id question answer timestamp orderedData].
  change (jsstring_eqb (js "id") (js "id") && jsstring_eqb (js "question") (js "question") &&
          jsstring_eqb (js "answer") (js "answer") &&
          jsstring_eqb (js "timestamp") (js "timestamp") &&
          jsstring_eqb (js "orderedData") (js "orderedData")) with true.
  rewrite data_of_json_map. reflexivity.
Qed.

Lemma history_json_not_empty h : history_json h <> [].
Proof. unfold history_json. simpl. discriminate. Qed.

Lemma In_insert_desc x y l : In x (insert_desc y l) <-> y = x \/ In x l.
Proof.
  induction l as [|z l IH]; simpl; [tauto|].
  destruct (timestamp z <=? timestamp y); simpl; rewrite ?IH; tauto.
Qed.

Lemma In_sort_desc x l : In x (sort_desc l) <-> In x l.
Proof.
  induction l as [|y l IH]; simpl; [tauto|]. rewrite In_insert_desc, IH. tauto.
Qed.

Lemma cleanupHistory_idem h : cleanupHistory (cleanupHistory h) = cleanupHistory h.
Proof.
  set (c := cleanupHistory h).
  assert (Hs : sort_desc c = c) by (apply sort_desc_sorted, Sorted_cleanupHistory).
  assert (Hf : firstn MAX_HISTORY_ITEMS c = c)
    by (apply firstn_all2, length_cleanupHistory).
  unfold cleanupHistory at 1. rewrite Hs, Hf.
  destruct (getStorageSize c >? MAX_STORAGE_SIZE) eqn:E.
  - destruct (cleanupHistory_shrunk_or_fits h) as [Hsh|Hfit].
    + assert (Hm : map shrink_item c = c).
      { fold c in Hsh. clear -Hsh. induction Hsh as [|r l Hr _ IH]; simpl;
          congruence. }
      rewrite Hm. apply drop_oldest_stable, cleanupHistory_size.
    + fold c in Hfit. rewrite Z.gtb_ltb, Z.ltb_lt in E. lia.
  - apply drop_oldest_stable. left. rewrite Z.gtb_ltb, Z.ltb_ge in E. exact E.
Qed.

Lemma deleteResearch_history JSON_parse set_outcome i st st' :
  deleteResearch JSON_parse set_outcome i st = Some st' ->
  history st' = filter (fun r => negb (jsstring_eqb (id r) i)) (history st).
Proof.
  unfold deleteResearch. intros H.
  match type of H with context [safeSetItem ?p ?o ?v ?w] =>
    destruct (safeSetItem p o v w) as [[b s']|]; [|discriminate]
  end.
  injection H as <-. reflexivity.
Qed.

Lemma cleanupHistory_newest_item x l :
  Forall (fun r => timestamp r <= timestamp x) l ->
  exists y t, cleanupHistory (x :: l) = y :: t /\ (y = x \/ y = shrink_item x).
Proof.
  intros H. rewrite cleanupHistory_reduced. unfold reduced, sorted_prefix.
  rewrite (sort_desc_newest _ _ H). simpl firstn.
  destruct (getStorageSize _ >? _); simpl map;
    match goal with |- context [drop_oldest ?f (?y :: ?t)] =>
      destruct (drop_oldest_head f y t) as [t' Ht']; rewrite Ht'; exists y, t'; auto
    end.
Qed.

Lemma find_filter_out (f : ResearchHistoryItem -> bool) l :
  find f (filter (fun r => negb (f r)) l) = None.
Proof.
  induction l as [|r l IH]; simpl; [reflexivity|].
  destruct (f r) eqn:E; simpl; [exact IH|]. rewrite E. exact IH.
Qed.

Lemma find_filter_other (f g : ResearchHistoryItem -> bool) l :
  (forall r, f r = true -> g r = true) -> find f (filter g l) = find f l.
Proof.
  intros Hfg. induction l as [|r l IH]; simpl; [reflexivity|].
  destruct (g r) eqn:Eg; simpl.
  - destruct (f r); [reflexivity|exact IH].
  - destruct (f r) eqn:Ef; [rewrite (Hfg r Ef) in Eg; discriminate|exact IH].
Qed.

Lemma clean_content_len c s : clean_content c = JStr s -> (length s <= 1003)%nat.
Proof.
  destruct c as [| | | |s0| |]; try discriminate. unfold clean_content, substring0.
  intros H.
  assert (Hs : s = firstn 1000 s0 ++ (if (1000 <? length s0)%nat then ellipsis else []))
    by congruence.
  subst s. rewrite length_app, length_firstn.
  destruct (1000 <? length s0)%nat; rewrite ?length_ellipsis; simpl length; lia.
Qed.

Lemma clean_output_len o s : clean_output o = JStr s -> (length s <= 503)%nat.
Proof.
  destruct o as [| | | |s0| |]; try discriminate. rewrite clean_output_alt.
  intros H.
  assert (Hs : s = firstn 500 s0 ++ (if (500 <? length s0)%nat then ellipsis else []))
    by congruence.
  subst s. rewrite length_app, length_firstn.
  destruct (500 <? length s0)%nat; rewrite ?length_ellipsis; simpl length; lia.
Qed.

Lemma In_firstn_In {A} (x : A) k l : In x (firstn k l) -> In x l.
Proof. intros H. rewrite <- (firstn_skipn k l). apply in_or_app. left. exact H. Qed.

Lemma newest_first_trans : Relations_1.Transitive newest_first.
Proof. intros a b c Hab Hbc. unfold newest_first in *. lia. Qed.

(** ** The history hook: writes, lookups and compaction *)



(** X2: [safeSetItem] removes a present key only after the write was refused
    with [QuotaExceededError], and then reports failure. *)
Theorem safeSetItem_removes_only_after_quota JSON_parse set_outcome value store b :
  safeSetItem JSON_parse set_outcome value store = Some (b, None) -> store <> None ->
  b = false /\ set_outcome store value = QuotaExceeded.
Proof.
  unfold safeSetItem. intros H Hs.
  destruct (set_outcome store value) eqn:E1.
  - discriminate.
  - split; [|reflexivity]. destruct store as [[|c s]|]; [injection H as <-; reflexivity| |].
    + destruct (JSON_parse (c :: s)) as [v|]; [|injection H as <-; reflexivity].
      destruct (match v with JArr l => items_of_json l | _ => Some [] end) as [h|];
        [|discriminate].
      match type of H with context [set_outcome ?x ?y] =>
        destruct (set_outcome x y); injection H as <-; [discriminate|reflexivity|reflexivity]
      end.
    + contradiction.
  - injection H as <- Hn. contradiction.
Qed.

Lemma safeSetItem_removes_only_after_quota_witness :
  safeSetItem json_parse refuse_all (js "[]") (Some (js "not json")) = Some (false, None) /\
  refuse_all (Some (js "not json")) (js "[]") = QuotaExceeded.
Proof.
  split; [vm_compute; reflexivity|].
  apply (safeSetItem_removes_only_after_quota json_parse refuse_all (js "[]")
           (Some (js "not json")) false); [vm_compute; reflexivity|discriminate].
Defined.

(** X3: With no stored value (absent or empty) there is nothing to compact:
    [safeSetItem] either writes the value or leaves the store unchanged. *)
Theorem safeSetItem_nothing_to_recover JSON_parse set_outcome value store :
  store = None \/ store = Some [] ->
  safeSetItem JSON_parse set_outcome value store = Some (true, Some value) \/
  safeSetItem JSON_parse set_outcome value store = Some (false, store).
Proof.
  intros Hs. unfold safeSetItem.
  destruct (set_outcome store value); auto.
  destruct Hs as [->| ->]; auto.
Qed.

Lemma safeSetItem_nothing_to_recover_witness :
  safeSetItem json_parse refuse_all (js "[]") None = Some (false, None).
Proof.
  destruct (safeSetItem_nothing_to_recover json_parse refuse_all (js "[]") None
              (or_introl eq_refl)) as [H|H]; [discriminate H|exact H].
Defined.

(** X4: After [deleteResearch id], [getResearchById id] finds nothing. *)
Theorem delete_then_lookup JSON_parse set_outcome i st st' :
  deleteResearch JSON_parse set_outcome i st = Some st' -> getResearchById i st' = None.
Proof.
  intros H. unfold getResearchById. rewrite (deleteResearch_history _ _ _ _ _ H).
  apply find_filter_out.
Qed.

Lemma delete_then_lookup_witness :
  exists st',
    deleteResearch json_parse accept_all (js "1")
      (mkState [mkItem (js "1") (js "q") (js "a") 1 []] None) = Some st' /\
    getResearchById (js "1") st' = None.
Proof.
  assert (Hs : is_some (deleteResearch json_parse accept_all (js "1")
                          (mkState [mkItem (js "1") (js "q") (js "a") 1 []] None)) = true)
    by (vm_compute; reflexivity).
  destruct (deleteResearch json_parse accept_all (js "1")
              (mkState [mkItem (js "1") (js "q") (js "a") 1 []] None)) as [st'|] eqn:E;
    [|discriminate].
  exists st'. split; [reflexivity|]. exact (delete_then_lookup _ _ _ _ _ E).
Defined.

(** X5: [deleteResearch id] does not change what [getResearchById] finds for
    any other id. *)
Theorem delete_keeps_other_lookups JSON_parse set_outcome i j st st' :
  deleteResearch JSON_parse set_outcome i st = Some st' -> i <> j ->
  getResearchById j st' = getResearchById j st.
Proof.
  intros H Hij. unfold getResearchById. rewrite (deleteResearch_history _ _ _ _ _ H).
  apply find_filter_other. intros r Hr. apply jsstring_eqb_spec in Hr.
  destruct (jsstring_eqb (id r) i) eqn:E; [|reflexivity].
  apply jsstring_eqb_spec in E. congruence.
Qed.

Lemma delete_keeps_other_lookups_witness :
  exists st',
    deleteResearch json_parse accept_all (js "1")
      (mkState [mkItem (js "1") (js "q") (js "a") 1 []; mkItem (js "2") (js "p") (js "b") 2 []]
         None) = Some st' /\
    getResearchById (js "2") st' = Some (mkItem (js "2") (js "p") (js "b") 2 []).
Proof.
  assert (Hs : is_some (deleteResearch json_parse accept_all (js "1")
                 (mkState [mkItem (js "1") (js "q") (js "a") 1 [];
                           mkItem (js "2") (js "p") (js "b") 2 []] None)) = true)
    by (vm_compute; reflexivity).
  destruct (deleteResearch json_parse accept_all (js "1")
              (mkState [mkItem (js "1") (js "q") (js "a") 1 [];
                        mkItem (js "2") (js "p") (js "b") 2 []] None)) as [st'|] eqn:E;
    [|discriminate].
  exists st'. split; [reflexivity|].
  rewrite (delete_keeps_other_lookups _ _ _ _ _ _ E); [reflexivity|discriminate].
Defined.

(** X6: The id [saveResearch] returns is found by [getResearchById] in the new
    state, on every path (first write accepted, quota recovery, minimal
    fallback): the record found carries the new timestamp and a prefix of
    the question.  This needs the new timestamp not to be older than the
    records in memory, as [Date.now()] gives. *)
Theorem save_then_lookup JSON_parse set_outcome t_id t_ts q a od st i st' :
  saveResearch JSON_parse set_outcome t_id t_ts q a od st = Some (i, st') ->
  Forall (fun r => timestamp r <= t_ts) (history st) ->
  exists r, getResearchById i st' = Some r /\ id r = i /\ timestamp r = t_ts /\
    exists k, question r = firstn k q.
Proof.
  intros H Hts.
  destruct (saveResearch_cases _ _ _ _ _ _ _ _ _ _ H) as [Hi [success [store1 [_ [Hs Hf]]]]].
  destruct (cleanupHistory_newest_item (new_item t_id t_ts q a od) (history st) Hts)
    as [y [t [Hc Hy]]].
  assert (Hid : id y = i) by (destruct Hy as [->| ->]; rewrite Hi; reflexivity).
  assert (Hty : timestamp y = t_ts) by (destruct Hy as [->| ->]; reflexivity).
  assert (Hqy : question y = firstn 200 q) by (destruct Hy as [->| ->]; reflexivity).
  unfold getResearchById.
  destruct success.
  - destruct (Hs eq_refl) as [Hh _]. rewrite Hh, Hc. simpl.
    rewrite Hid, jsstring_eqb_refl. exists y. repeat split; auto. eauto.
  - destruct (Hf eq_refl) as [Hh _]. rewrite Hh, Hc. simpl.
    rewrite Hid, jsstring_eqb_refl. exists (minimal_item y). repeat split; auto.
    exists (Nat.min 100 200). unfold minimal_item, substring0. cbn [question].
    rewrite Hqy, firstn_firstn. reflexivity.
Qed.

Lemma save_then_lookup_witness :
  exists i st' r,
    saveResearch json_parse refuse_all 5 5 (js "q") (js "a") [] st_empty = Some (i, st') /\
    getResearchById i st' = Some r /\ timestamp r = 5.
Proof.
  assert (Hs : is_some (saveResearch json_parse refuse_all 5 5 (js "q") (js "a") [] st_empty)
               = true) by (vm_compute; reflexivity).
  destruct (saveResearch json_parse refuse_all 5 5 (js "q") (js "a") [] st_empty)
    as [[i st']|] eqn:E; [|discriminate].
  destruct (save_then_lookup _ _ _ _ _ _ _ _ _ _ E (Forall_nil _))
    as [r [Hr [_ [Ht _]]]].
  exists i, st', r. split; [reflexivity|]. split; assumption.
Defined.

(** X7: Invariant: a history made only of records the hook created stays so
    through [saveResearch] and [deleteResearch]. *)
Theorem stored_records_invariant JSON_parse set_outcome st :
  Forall stored_record (history st) ->
  (forall t_id t_ts q a od i st',
     saveResearch JSON_parse set_outcome t_id t_ts q a od st = Some (i, st') ->
     Forall stored_record (history st')) /\
  (forall j st', deleteResearch JSON_parse set_outcome j st = Some st' ->
     Forall stored_record (history st')).
Proof.
  intros Hst. split.
  - intros t_id t_ts q a od i st' H.
    destruct (saveResearch_cases _ _ _ _ _ _ _ _ _ _ H) as [_ [success [store1 [_ [Hs Hf]]]]].
    assert (Hc : Forall stored_record
                   (cleanupHistory (new_item t_id t_ts q a od :: history st))).
    { apply Forall_cleanupHistory; [intros x Hx; apply stored_shrink, Hx|].
      constructor; [apply stored_new|exact Hst]. }
    destruct success.
    + destruct (Hs eq_refl) as [-> _]. exact Hc.
    + destruct (Hf eq_refl) as [-> _]. unfold minimalHistory.
      apply Forall_map, Forall_firstn. eapply Forall_impl; [|exact Hc].
      intros x Hx. apply stored_minimal, Hx.
  - intros j st' H. rewrite (deleteResearch_history _ _ _ _ _ H).
    apply Forall_forall. intros x Hx. apply filter_In in Hx as [Hx _].
    rewrite Forall_forall in Hst. apply Hst, Hx.
Qed.

Lemma stored_records_invariant_witness :
  exists st', saveResearch json_parse accept_all 1 1 (js "q") (js "a") [] st_empty
                = Some (to_decimal 1, st') /\
  Forall stored_record (history st').
Proof.
  assert (E : saveResearch json_parse accept_all 1 1 (js "q") (js "a") [] st_empty
              = Some (to_decimal 1,
                      mkState (cleanupHistory [new_item 1 1 (js "q") (js "a") []])
                        (Some (history_json (cleanupHistory [new_item 1 1 (js "q") (js "a") []])))))
    by (vm_compute; reflexivity).
  eexists. split; [exact E|].
  exact (proj1 (stored_records_invariant json_parse accept_all st_empty
                  (Forall_nil _)) _ _ _ _ _ _ _ E).
Defined.

(** X8: [handleSelectResearch] loads a record of the history into the page;
    the save effect of [Home] then calls [saveResearch] on the loaded
    question, answer and orderedData.  For a record the hook created, the
    new record has exactly the same question, answer and orderedData: the
    truncations and the cleaning do not change it again. *)
Theorem select_then_resave i st q a od t_id t_ts :
  Forall stored_record (history st) ->
  handleSelectResearch i st = Some (q, a, od) ->
  let r := new_item t_id t_ts q a od in
  question r = q /\ answer r = a /\ orderedData r = od.
Proof.
  intros Hst H r. unfold handleSelectResearch, getResearchById in H.
  destruct (find _ (history st)) as [x|] eqn:E; [|discriminate].
  injection H as <- <- <-. apply find_some in E as [Hx _].
  rewrite Forall_forall in Hst. destruct (stored_record_shape x (Hst x Hx)) as [Hq [Ha Hd]].
  unfold r, new_item, substring0. cbn [question answer orderedData].
  rewrite firstn_all2 by exact Hq. auto.
Qed.

Lemma select_then_resave_witness :
  let st := mkState [new_item 1 1 (js "q") (repeat 65 (MAX_ANSWER_LENGTH + 1)) []] None in
  handleSelectResearch (to_decimal 1) st =
    Some (js "q", clean_answer (repeat 65 (MAX_ANSWER_LENGTH + 1)), []) /\
  answer (new_item 2 2 (js "q") (clean_answer (repeat 65 (MAX_ANSWER_LENGTH + 1))) [])
    = clean_answer (repeat 65 (MAX_ANSWER_LENGTH + 1)).
Proof.
  intros st.
  assert (Hsel : handleSelectResearch (to_decimal 1) st =
                 Some (js "q", clean_answer (repeat 65 (MAX_ANSWER_LENGTH + 1)), [])).
  { unfold handleSelectResearch, getResearchById, st. cbn [history find].
    replace (jsstring_eqb (id (new_item 1 1 (js "q") (repeat 65 (MAX_ANSWER_LENGTH + 1)) []))
               (to_decimal 1)) with true by (vm_compute; reflexivity).
    reflexivity. }
  split; [exact Hsel|].
  refine (proj1 (proj2 (select_then_resave (to_decimal 1) st _ _ _ 2 2 _ Hsel))).
  constructor; [apply stored_new|constructor].
Defined.

(** X9: Compaction is idempotent: compacting a compacted history changes
    nothing. *)
Theorem cleanupHistory_idempotent h : cleanupHistory (cleanupHistory h) = cleanupHistory h.
Proof. apply cleanupHistory_idem. Qed.

Lemma loadHistory_compacted JSON_parse set_outcome h :
  let c := cleanupHistory h in
  JSON_parse (history_json c) = Some (JArr (map item_json c)) ->
  loadHistory JSON_parse set_outcome (Some (history_json c)) =
    Some (mkState c (Some (history_json c))).
Proof.
  intros c Hp. unfold loadHistory.
  destruct (history_json c) as [|x s] eqn:Ej; [exfalso; exact (history_json_not_empty c Ej)|].
  rewrite ?Ej in Hp. rewrite Hp, items_of_json_map. unfold c. rewrite cleanupHistory_idem, length_map.
  rewrite Nat.eqb_refl. reflexivity.
Qed.

(** X10: Loading a stored compacted history gives it back and leaves the store
    as it is (the count does not change, so nothing is rewritten), given
    that [JSON.parse] reads the serialized history back. *)
Theorem load_after_compaction JSON_parse set_outcome h :
  let c := cleanupHistory h in
  JSON_parse (history_json c) = Some (JArr (map item_json c)) ->
  loadHistory JSON_parse set_outcome (Some (history_json c)) =
    Some (mkState c (Some (history_json c))).
Proof. apply loadHistory_compacted. Qed.

Lemma load_after_compaction_witness :
  loadHistory json_parse refuse_all
    (Some (history_json (cleanupHistory [mkItem (js "1") (js "q") (js "a\b") 1 []])))
  = Some (mkState (cleanupHistory [mkItem (js "1") (js "q") (js "a\b") 1 []])
            (Some (history_json (cleanupHistory [mkItem (js "1") (js "q") (js "a\b") 1 []])))).
Proof.
  apply (load_after_compaction json_parse refuse_all [mkItem (js "1") (js "q") (js "a\b") 1 []]).
  vm_compute. reflexivity.
Defined.



(** X12: Compaction never invents records: every compacted record is a record
    of the input or the shrunk form of one. *)
Theorem cleanupHistory_origin h :
  Forall (fun r => In r h \/ exists x, In x h /\ r = shrink_item x) (cleanupHistory h).
Proof.
  apply Forall_cleanupHistory.
  - intros r [Hr|[x [Hx ->]]]; right; [exists r; auto|exists x; split; [exact Hx|]].
    apply shrink_item_idem.
  - apply Forall_forall. intros r Hr. left. exact Hr.
Qed.

(** X13: Compaction of a non-empty history keeps one of its newest records, as
    it is or shrunk, at the head. *)
Theorem cleanupHistory_keeps_newest h :
  h <> [] ->
  exists y t, cleanupHistory h = y :: t /\
    (In y h \/ exists x, In x h /\ y = shrink_item x) /\
    Forall (fun r => timestamp r <= timestamp y) h.
Proof.
  intros Hne.
  destruct (sort_desc h) as [|z s] eqn:Hs.
  { destruct h; [contradiction|]. pose proof (length_sort_desc (r :: h)) as Hl.
    rewrite Hs in Hl. discriminate. }
  assert (Hz : In z h) by (apply In_sort_desc; rewrite Hs; left; reflexivity).
  assert (Hmax : Forall (fun r => timestamp r <= timestamp z) h).
  { apply Forall_forall. intros r Hr. apply In_sort_desc in Hr. rewrite Hs in Hr.
    destruct Hr as [<-|Hr]; [lia|].
    pose proof (Sorted_sort_desc h) as Hsorted. rewrite Hs in Hsorted.
    apply (Sorted_extends newest_first_trans) in Hsorted.
    rewrite Forall_forall in Hsorted. exact (Hsorted r Hr). }
  rewrite cleanupHistory_reduced. unfold reduced, sorted_prefix. rewrite Hs. simpl firstn.
  destruct (getStorageSize _ >? _); simpl map;
    match goal with |- context [drop_oldest ?f (?y :: ?t)] =>
      destruct (drop_oldest_head f y t) as [t' Ht']; rewrite Ht'; exists y, t'
    end; (split; [reflexivity|]); split; eauto.
Qed.

(** X14: The record [saveResearch] builds has a question of at most 200
    characters, an answer of at most 5003 characters and at most 3
    orderedData entries, whatever the input. *)
Theorem new_item_bounds t_id t_ts q a od :
  let r := new_item t_id t_ts q a od in
  (length (question r) <= 200)%nat /\
  (length (answer r) <= MAX_ANSWER_LENGTH + 3)%nat /\
  (length (orderedData r) <= MAX_ORDERED_DATA_ITEMS)%nat.
Proof.
  intros r. unfold r, new_item, substring0, cleanData. cbn [question answer orderedData].
  rewrite length_firstn, length_map, length_firstn. split; [lia|]. split; [|lia].
  unfold clean_answer, substring0. destruct (_ <? _)%nat eqn:E.
  - rewrite length_app, length_firstn, length_ellipsis. lia.
  - apply Nat.ltb_ge in E. lia.
Qed.

(** X15: Every entry [cleanData] keeps either is an input entry of a type
    outside the switch, passed through as it is, or has a string
    [content] of at most 1003 and a string [output] of at most 503
    characters. *)
Theorem cleanData_entry_bounds d e :
  In e (cleanData d) ->
  (In e d /\ ~ In (get (js "type") e) known_variants) \/
  ((forall s, get (js "content") e = JStr s -> (length s <= 1003)%nat) /\
   (forall s, get (js "output") e = JStr s -> (length s <= 503)%nat)).
Proof.
  unfold cleanData. intros H. apply in_map_iff in H as [x [<- Hx]].
  apply In_firstn_In in Hx. unfold clean_item.
  remember (clean_content (get (js "content") x)) as c eqn:Hc.
  remember (clean_output (get (js "output") x)) as o eqn:Ho.
  destruct (get (js "type") x) as [| | | |t| |] eqn:Et;
    try (left; split; [exact Hx|]; rewrite Et; simpl; intuition discriminate).
  assert (Hcs : forall s, c = JStr s -> (length s <= 1003)%nat)
    by (intros s Hs; subst c; exact (clean_content_len _ _ Hs)).
  assert (Hos : forall s, o = JStr s -> (length s <= 503)%nat)
    by (intros s Hs; subst o; exact (clean_output_len _ _ Hs)).
  clear Hc Ho.
  repeat match goal with
  | |- context [if jsstring_eqb t ?k then _ else _] =>
      let E := fresh "E" in destruct (jsstring_eqb t k) eqn:E;
      [right; split; intros s Hs; simpl in Hs; first [discriminate Hs | auto]|]
  end.
  left. split; [exact Hx|]. rewrite Et. intros Hin. simpl in Hin. kill_variant_in.
Qed.

Lemma cleanupHistory_keeps_newest_witness :
  exists y t,
    cleanupHistory [mkItem (js "1") (js "q") (js "a") 1 [];
                    mkItem (js "2") (js "p") (js "b") 2 []] = y :: t /\
    Forall (fun r => timestamp r <= timestamp y)
      [mkItem (js "1") (js "q") (js "a") 1 []; mkItem (js "2") (js "p") (js "b") 2 []].
Proof.
  destruct (cleanupHistory_keeps_newest
              [mkItem (js "1") (js "q") (js "a") 1 []; mkItem (js "2") (js "p") (js "b") 2 []]
              ltac:(discriminate)) as [y [t [H1 [_ H2]]]].
  exists y, t. split; assumption.
Defined.

Lemma cleanData_entry_bounds_witness :
  let d := [[(js "type", JStr (js "chat")); (js "content", JStr (repeat 65 1200))]] in
  In (clean_item (hd [] d)) (cleanData d) /\
  forall s, get (js "content") (clean_item (hd [] d)) = JStr s -> (length s <= 1003)%nat.
Proof.
  intros d.
  assert (Hin : In (clean_item (hd [] d)) (cleanData d)) by (left; reflexivity).
  split; [exact Hin|].
  destruct (cleanData_entry_bounds d _ Hin) as [[Hd Hk]|[Hc _]]; [|exact Hc].
  exfalso. apply Hk. vm_compute. right. right. right. right. left. reflexivity.
Defined.

(** ** The chat route and its client *)

Lemma trim_start_suffix s : exists p, s = p ++ trim_start s.
Proof.
  induction s as [|c s [p Hp]]; [exists []; reflexivity|]. simpl.
  destruct (js_ws c); [exists (c :: p); simpl; congruence|exists []; reflexivity].
Qed.

Lemma trim_start_head s :
  match trim_start s with c :: _ => js_ws c = false | [] => True end.
Proof.
  induction s as [|c s IH]; simpl; [exact I|].
  destruct (js_ws c) eqn:E; [exact IH|exact E].
Qed.

Lemma hd_rev {A} (d : A) l : l <> [] -> hd d (rev l) = last l d.
Proof.
  intros H. rewrite (app_removelast_last d H) at 1. rewrite rev_app_distr. reflexivity.
Qed.

(** [trim] leaves no whitespace at either end. *)
Lemma trim_ends s x r :
  trim s = x :: r -> js_ws x = false /\ js_ws (last (x :: r) 0) = false.
Proof.
  unfold trim. intros H.
  set (t := trim_start s) in H. set (u := trim_start (rev t)) in H.
  destruct (trim_start_suffix (rev t)) as [p Hp]. fold u in Hp.
  split.
  - assert (Ht : t = (x :: r) ++ rev p).
    { rewrite <- H, <- rev_app_distr, <- Hp, rev_involutive. reflexivity. }
    pose proof (trim_start_head s) as Hh. fold t in Hh. rewrite Ht in Hh. exact Hh.
  - assert (Hu : u = rev (x :: r)) by (rewrite <- H, rev_involutive; reflexivity).
    pose proof (trim_start_head (rev t)) as Hh. fold u in Hh.
    rewrite <- (hd_rev 0 (x :: r)) by discriminate. rewrite <- Hu.
    destruct u; [|exact Hh].
    apply (f_equal (@length Z)) in Hu. rewrite length_rev in Hu. discriminate Hu.
Qed.

Lemma is_blank_false_not_nil s : is_blank s = false -> s <> [].
Proof. intros H ->. discriminate H. Qed.

Lemma length_slice_last {A} n (l : list A) : (length (slice_last n l) <= n)%nat.
Proof. unfold slice_last. rewrite length_skipn. lia. Qed.

Lemma join_not_nil sep x l : x <> [] -> join sep (x :: l) <> [].
Proof.
  intros Hx. destruct l; simpl; [exact Hx|]. destruct x; [contradiction|discriminate].
Qed.

Lemma msg_line_not_nil m : msg_line m <> [].
Proof. unfold msg_line. destruct (jsstring_eqb _ _); discriminate. Qed.

Lemma slice_last_not_nil {A} n (l : list A) : (0 < n)%nat -> l <> [] -> slice_last n l <> [].
Proof.
  intros Hn Hl H. unfold slice_last in H.
  apply (f_equal (@length A)) in H. rewrite length_skipn in H. simpl in H.
  destruct l; [contradiction|]. simpl length in H. lia.
Qed.

(** X16: The route forwards a request only for a [POST] whose body is an
    object with a string [message] that is not blank; what it forwards is
    the trimmed message, which has no whitespace at either end, and the
    [chatHistory] or [[]] when it is falsy. *)
Theorem handler_forwards_only_valid backend method body req :
  forwarded (handler backend method body) = Some req ->
  method = js "POST" /\
  exists fs m x r, body = JObj fs /\ get (js "message") fs = JStr m /\ trim m = x :: r /\
    js_ws x = false /\ js_ws (last (x :: r) 0) = false /\
    req = stringify (JObj [(js "message", JStr (trim m));
                           (js "chatHistory",
                            if truthy (get (js "chatHistory") fs) then get (js "chatHistory") fs
                            else JArr [])]).
Proof.
  unfold handler. intros H.
  destruct (jsstring_eqb method (js "POST")) eqn:Em; cbv [negb] in H; [|discriminate H].
  apply jsstring_eqb_spec in Em. split; [exact Em|].
  destruct body as [| | | | | |fs]; cbn [get truthy negb forwarded] in H; try discriminate H.
  destruct (truthy (get (js "message") fs)) eqn:Et; cbn [negb forwarded] in H;
    [|discriminate H].
  destruct (get (js "message") fs) as [| | | |m| |] eqn:Eg; try discriminate H.
  destruct (is_blank m) eqn:Eb; [discriminate H|].
  assert (Hxr : exists x r, trim m = x :: r).
  { unfold is_blank in Eb. destruct (trim m) as [|x r]; [discriminate Eb|eauto]. }
  destruct Hxr as [x [r Etr]].
  destruct (trim_ends m x r Etr) as [Hx Hr].
  exists fs, m, x, r. do 5 (split; [assumption || reflexivity|]).
  match type of H with context [backend ?q] =>
    destruct (backend q) as [|st [d|]]; [|destruct (ok_status st)|];
      injection H as <-; reflexivity
  end.
Qed.

Lemma handler_forwards_only_valid_witness :
  let req := stringify (JObj [(js "message", JStr (js "hi")); (js "chatHistory", JArr [])]) in
  forwarded (handler (fun _ => FetchRejected) (js "POST")
               (JObj [(js "message", JStr (js " hi "))])) = Some req /\
  js "POST" = js "POST".
Proof.
  intros req.
  assert (H : forwarded (handler (fun _ => FetchRejected) (js "POST")
                           (JObj [(js "message", JStr (js " hi "))])) = Some req)
    by (vm_compute; reflexivity).
  split; [exact H|]. exact (proj1 (handler_forwards_only_valid _ _ _ _ H)).
Defined.

Lemma handler_spec backend method body :
  (handler backend method body = mkResponse None 405 (error_body (js "Method not allowed")) /\
   method <> js "POST") \/
  (method = js "POST" /\
   (handler backend method body = mkResponse None 400 (error_body (js "Message is required")) \/
    handler backend method body = mkResponse None 500 (error_body server_error_message) \/
    (exists req, handler backend method body
                   = mkResponse (Some req) 500 (error_body server_error_message) /\
                 forall st d, backend req = BackendResponse st (Some d) -> ok_status st = false) \/
    (exists req st d, backend req = BackendResponse st (Some d) /\ ok_status st = true /\
                      handler backend method body = mkResponse (Some req) 200 d))).
Proof.
  unfold handler. destruct (jsstring_eqb method (js "POST")) eqn:Em; cbn [negb].
  - right. split; [apply jsstring_eqb_spec, Em|].
    destruct body as [| | | | | |fs]; cbn [get truthy negb]; auto.
    destruct (truthy (get (js "message") fs)); cbn [negb]; auto.
    destruct (get (js "message") fs) as [| | | |m| |]; auto.
    destruct (is_blank m); auto.
    match goal with |- context [backend ?q] =>
      destruct (backend q) as [|st [d|]] eqn:Eb
    end.
    + right. right. left. eexists. split; [reflexivity|]. intros st d Hd.
      rewrite Eb in Hd. discriminate Hd.
    + destruct (ok_status st) eqn:Eo.
      * right. right. right. eauto 6.
      * right. right. left. eexists. split; [reflexivity|]. intros st' d' Hd.
        rewrite Eb in Hd. injection Hd as <- <-. exact Eo.
    + right. right. left. eexists. split; [reflexivity|]. intros st' d' Hd.
      rewrite Eb in Hd. discriminate Hd.
  - left. split; [reflexivity|]. intros ->. rewrite jsstring_eqb_refl in Em. discriminate.
Qed.

(** X17: A [POST] whose [message] is falsy (missing, [null], [false], [0], the
    empty string) or a whitespace-only string gets the 400 response, and
    nothing is forwarded to the backend. *)
Theorem handler_rejects_blank backend fs :
  truthy (get (js "message") fs) = false \/
  (exists s, get (js "message") fs = JStr s /\ is_blank s = true) ->
  handler backend (js "POST") (JObj fs) = mkResponse None 400 (error_body (js "Message is required")).
Proof.
  intros H. unfold handler. rewrite jsstring_eqb_refl. cbn [negb].
  destruct H as [H|[s [Hs Hb]]]; [rewrite H; reflexivity|].
  rewrite Hs. destruct s as [|c s]; [reflexivity|]. cbn [truthy negb]. rewrite Hb. reflexivity.
Qed.

Lemma handler_rejects_blank_witness :
  handler (fun _ => FetchRejected) (js "POST") (JObj [(js "message", JStr [32; 10; 0x3000])])
    = mkResponse None 400 (error_body (js "Message is required")).
Proof.
  apply handler_rejects_blank. right. exists [32; 10; 0x3000]. split; reflexivity.
Defined.

(** X18: The route answers with 405, 400, 500 or 200 only; 405 exactly for a
    method other than [POST]; 200 only after a forwarded request that the
    backend answered with an ok status and a JSON body, which is then
    passed through as it is. *)
Theorem handler_status_cases backend method body :
  let r := handler backend method body in
  In (res_status r) [200; 400; 405; 500] /\
  (res_status r = 405 <-> method <> js "POST") /\
  (res_status r = 200 ->
   exists req status data, forwarded r = Some req /\
     backend req = BackendResponse status (Some data) /\ ok_status status = true /\
     res_body r = data).
Proof.
  intros r. unfold r.
  destruct (handler_spec backend method body)
    as [[-> Hm]|[Hm [->|[->|[[req [-> _]]|[req [st [d [Hb [Ho ->]]]]]]]]]]; cbn [res_status].
  - split; [simpl; tauto|]. split; [tauto|]. discriminate.
  - split; [simpl; tauto|]. split; [split; [discriminate|tauto]|]. discriminate.
  - split; [simpl; tauto|]. split; [split; [discriminate|tauto]|]. discriminate.
  - split; [simpl; tauto|]. split; [split; [discriminate|tauto]|]. discriminate.
  - split; [simpl; tauto|]. split; [split; [discriminate|tauto]|].
    intros _. exists req, st, d. auto.
Qed.

(** X19: When the forwarded request fails (the [fetch] is rejected, the status
    is not ok, or the body is not JSON), the route answers 500 with its
    fixed error message. *)
Theorem handler_backend_failure backend method body req :
  forwarded (handler backend method body) = Some req ->
  (forall st d, backend req = BackendResponse st (Some d) -> ok_status st = false) ->
  handler backend method body = mkResponse (Some req) 500 (error_body server_error_message).
Proof.
  intros Hf Hfail.
  destruct (handler_spec backend method body)
    as [[He _]|[_ [He|[He|[[req' [He _]]|[req' [st [d [Hb [Ho He]]]]]]]]]];
    rewrite He in Hf |- *; cbn [forwarded] in Hf; try discriminate Hf;
    injection Hf as <-; [reflexivity|].
  rewrite (Hfail _ _ Hb) in Ho. discriminate Ho.
Qed.

Lemma handler_backend_failure_witness :
  handler (fun _ => BackendResponse 502 (Some JNull)) (js "POST")
    (JObj [(js "message", JStr (js "hi"))])
  = mkResponse (Some (stringify (JObj [(js "message", JStr (js "hi"));
                                       (js "chatHistory", JArr [])])))
      500 (error_body server_error_message).
Proof.
  apply handler_backend_failure.
  - vm_compute. reflexivity.
  - intros st d H. injection H as <- _. reflexivity.
Defined.

Lemma get_local_chat_body m c p mo :
  get (js "message") [(js "message", JStr m); (js "chatHistory", c);
                      (js "provider", p); (js "model", mo)] = JStr m /\
  get (js "chatHistory") [(js "message", JStr m); (js "chatHistory", c);
                          (js "provider", p); (js "model", mo)] = c.
Proof. split; reflexivity. Qed.

(** What the route does with a body built by [handleLocalChat]. *)
Lemma handler_local_chat_body backend m ch p mo body :
  local_chat_body m ch p mo = Some body ->
  let req := stringify (JObj [(js "message", JStr (trim m));
                              (js "chatHistory", JArr (map message_json (slice_last 10 ch)))]) in
  handler backend (js "POST") body =
  match backend req with
  | BackendResponse status (Some data) =>
      if ok_status status then mkResponse (Some req) 200 data
      else mkResponse (Some req) 500 (error_body server_error_message)
  | _ => mkResponse (Some req) 500 (error_body server_error_message)
  end.
Proof.
  intros H req. unfold local_chat_body in H.
  destruct (is_blank m) eqn:Eb; [discriminate H|]. injection H as <-.
  unfold handler. rewrite jsstring_eqb_refl. cbn [negb].
  destruct (get_local_chat_body m (JArr (map message_json (slice_last 10 ch)))
              (JStr (or_default p (js "ollama"))) (JStr (or_default mo (js "mistral:7b"))))
    as [Hm Hc].
  cbv beta iota zeta. rewrite Hm, Hc.
  destruct m as [|c m]; [discriminate Eb|]. cbn [truthy negb]. rewrite Eb.
  unfold req. reflexivity.
Qed.

(** X20: Composition of [handleLocalChat] with the route: a request the client
    sends is never refused with 400 or 405, and the route forwards the
    trimmed message with the last (at most 10) chat messages. *)
Theorem client_request_accepted backend m ch p mo body :
  local_chat_body m ch p mo = Some body ->
  let r := handler backend (js "POST") body in
  res_status r <> 400 /\ res_status r <> 405 /\
  forwarded r = Some (stringify (JObj [(js "message", JStr (trim m));
                               (js "chatHistory", JArr (map message_json (slice_last 10 ch)))])) /\
  (length (slice_last 10 ch) <= 10)%nat.
Proof.
  intros H r. unfold r. rewrite (handler_local_chat_body backend _ _ _ _ _ H).
  split; [|split; [|split; [|apply length_slice_last]]];
    match goal with |- context [backend ?q] =>
      destruct (backend q) as [|st [d|]]; [|destruct (ok_status st)|]; cbn [forwarded res_status]; first [discriminate | reflexivity]
    end.
Qed.

Lemma client_request_accepted_witness :
  local_chat_body (js " hello") [] None None =
    Some (JObj [(js "message", JStr (js " hello")); (js "chatHistory", JArr []);
                (js "provider", JStr (js "ollama")); (js "model", JStr (js "mistral:7b"))]) /\
  res_status (handler (fun _ => FetchRejected) (js "POST")
                (JObj [(js "message", JStr (js " hello")); (js "chatHistory", JArr []);
                       (js "provider", JStr (js "ollama"));
                       (js "model", JStr (js "mistral:7b"))])) <> 400.
Proof.
  assert (H : local_chat_body (js " hello") [] None None =
    Some (JObj [(js "message", JStr (js " hello")); (js "chatHistory", JArr []);
                (js "provider", JStr (js "ollama")); (js "model", JStr (js "mistral:7b"))]))
    by (vm_compute; reflexivity).
  split; [exact H|]. exact (proj1 (client_request_accepted (fun _ => FetchRejected) _ _ _ _ _ H)).
Defined.

(** X21: End to end, [handleLocalChat] with the route: after a failure of the
    backend the chat shows the client's own error message (the route's
    500 message is never shown); after an ok backend answer with a JSON
    object it shows that object's [response]. *)
Theorem chat_reply_end_to_end backend m ch p mo body :
  local_chat_body m ch p mo = Some body ->
  let req := stringify (JObj [(js "message", JStr (trim m));
                              (js "chatHistory", JArr (map message_json (slice_last 10 ch)))]) in
  ((forall st d, backend req = BackendResponse st (Some d) -> ok_status st = false) ->
   client_reply (handler backend (js "POST") body) = JStr client_error_message) /\
  (forall st fs, backend req = BackendResponse st (Some (JObj fs)) -> ok_status st = true ->
   client_reply (handler backend (js "POST") body) = get (js "response") fs).
Proof.
  intros H req. rewrite (handler_local_chat_body backend _ _ _ _ _ H). fold req.
  split.
  - intros Hfail. destruct (backend req) as [|st [d|]] eqn:Eb; [reflexivity| |reflexivity].
    rewrite (Hfail st d eq_refl). reflexivity.
  - intros st fs Hb Ho. rewrite Hb, Ho. reflexivity.
Qed.

Lemma chat_reply_end_to_end_witness :
  client_reply (handler (fun _ => BackendResponse 200 (Some (JObj [(js "response", JStr (js "ok"))])))
                  (js "POST")
                  (JObj [(js "message", JStr (js "hi")); (js "chatHistory", JArr []);
                         (js "provider", JStr (js "ollama")); (js "model", JStr (js "mistral:7b"))]))
  = JStr (js "ok").
Proof.
  exact (proj2 (chat_reply_end_to_end
                  (fun _ => BackendResponse 200 (Some (JObj [(js "response", JStr (js "ok"))])))
                  (js "hi") [] None None _ ltac:(vm_compute; reflexivity))
           200 _ eq_refl eq_refl).
Defined.

(** X22: [handleSubmit] in research mode, for a prompt that is not blank:
    the query is the prompt itself exactly when there is no chat history;
    otherwise the prompt is followed by the conversation context made of
    the last (at most 10) messages. *)
Theorem handleSubmit_research p has_local ch :
  is_blank p = false ->
  exists q, handleSubmit p false has_local ch = Research q /\
    ((ch = [] /\ q = p) \/
     (ch <> [] /\ q = p ++ [10; 10] ++ js "Conversation Context:" ++ [10] ++
                   join [10] (map msg_line (slice_last 10 ch)))).
Proof.
  intros Hb. unfold handleSubmit. rewrite Hb. eexists. split; [reflexivity|].
  unfold contextual_query, conversation_context.
  destruct ch as [|m ch']; [left; auto|right].
  assert (Hne : join [10] (map msg_line (slice_last 10 (m :: ch'))) <> []).
  { destruct (slice_last 10 (m :: ch')) as [|x l] eqn:Es.
    - exfalso. apply (slice_last_not_nil 10 (m :: ch')); [lia|discriminate|exact Es].
    - cbn [map]. apply join_not_nil, msg_line_not_nil. }
  destruct (join [10] (map msg_line (slice_last 10 (m :: ch')))) eqn:Ej;
    [contradiction|]. split; [discriminate|reflexivity].
Qed.

Lemma handleSubmit_research_witness :
  handleSubmit (js "topic") false true [] = Research (js "topic").
Proof.
  destruct (handleSubmit_research (js "topic") true [] eq_refl)
    as [q [H [[_ ->]|[Hn _]]]]; [exact H|contradiction].
Defined.

(** X23: Composition of the input box with [handleLocalChat] and the route: a
    prompt [handleSubmit] sends to the local chat ([onLocalChat] is
    [handleLocalChat], called with the prompt only) is always sent on by
    [handleLocalChat], and the route does not refuse it. *)
Theorem submit_local_accepted backend p ch m :
  handleSubmit p true true ch = LocalChat m ->
  exists body, local_chat_body m ch None None = Some body /\
    res_status (handler backend (js "POST") body) <> 400 /\
    res_status (handler backend (js "POST") body) <> 405.
Proof.
  unfold handleSubmit. intros H. destruct (is_blank p) eqn:Eb; [discriminate H|].
  injection H as <-. unfold local_chat_body at 1. rewrite Eb. eexists. split; [reflexivity|].
  match goal with |- context [handler backend (js "POST") ?b] =>
    assert (Hl : local_chat_body p ch None None = Some b) by (unfold local_chat_body; rewrite Eb; reflexivity)
  end.
  rewrite (handler_local_chat_body backend _ _ _ _ _ Hl).
  match goal with |- context [backend ?q] =>
    destruct (backend q) as [|st [d|]]; [|destruct (ok_status st)|]; cbn [res_status]; split; discriminate
  end.
Qed.

Lemma submit_local_accepted_witness :
  exists body, local_chat_body (js "hello") [] None None = Some body /\
    res_status (handler (fun _ => FetchRejected) (js "POST") body) <> 400.
Proof.
  destruct (submit_local_accepted (fun _ => FetchRejected) (js "hello") [] (js "hello")
              ltac:(vm_compute; reflexivity)) as [body [H1 [H2 _]]].
  exists body. split; assumption.
Defined.
